(** * Timing-oracle prober ([tic.py]): shallow embedding and verification

    The script discovers a secret one character at a time: for every
    character of a fixed charset it sends a few HTTP requests carrying
    [known + c], averages the wall-clock time they took, and accepts the
    first character whose average exceeds a fixed threshold.

    Modelling choices.
    - Python floats (seconds) are exact rationals [Q]; every statement about
      a measured value is up to [==] on [Q].  What the script decides from
      the averages it has computed does not depend on how they were rounded,
      and is proved here.  What depends on the rounding itself is run on a
      second embedding of the script, in binary64 (section "The prober in
      binary64").
    - The outside world (clock, network, console) is an explicit state that
      the program threads through a small state-and-exception monad.  The
      network is an [Oracle]: a function of the whole request history, so it
      covers every deterministic server, stateless or not.
    - [print] appends a structured [Line] to [stdout]; the [.3f] rendering of
      a number is not modelled.
    - [while True] is run with fuel; out of fuel is [None]. *)

From Stdlib Require Import QArith ZArith Znat String Ascii List Bool Arith Lia.
From Stdlib Require Import Permutation Sorted DecimalString.
From Stdlib Require Import PrimFloat Uint63.
Import ListNotations.

Local Open Scope string_scope.
Local Open Scope list_scope.
Local Open Scope Q_scope.

(** ** Module-level constants *)

Record Config : Type := {
  url : string;
  charset : string;
  threshold : Q;
  attempts_per_char : nat;
  known : string
}.

Definition ascii_lowercase : string := "abcdefghijklmnopqrstuvwxyz".
Definition ascii_uppercase : string := "ABCDEFGHIJKLMNOPQRSTUVWXYZ".
Definition ascii_letters : string := ascii_lowercase ++ ascii_uppercase.
Definition digits : string := "0123456789".

(** The constants as [tic.py] sets them (lines 3-8).  The threshold is the
    binary64 number the literal [0.17] denotes, [0x1.5c28f5c28f5c3p-3],
    which is 6124895493223875 / 2^55. *)
Definition tic : Config := {|
  url := "https://a1da2a97.bsidesmumbai.in/search";
  charset := ascii_letters ++ digits ++ "{}_";
  threshold := 6124895493223875 # 36028797018963968;
  attempts_per_char := 7;
  known := "C"
|}.

(** ** The world: clock, network, console *)

Inductive Error : Type :=
| ZeroDivisionError
| RequestException.

(** One HTTP GET as the world saw it: where it went, the [q] parameter, the
    [timeout] argument, whether it ended in a transport failure and how far
    the wall clock moved meanwhile. *)
Record Request : Type := {
  target : string;
  query : string;
  timeout : Q;
  failed : bool;
  took : Q
}.

(** The server and the network in between: given everything sent so far
    (oldest first) and the next request, does it fail, and how long does it
    take? *)
Definition Oracle : Type :=
  list Request -> string -> string -> Q -> bool * Q.

Inductive Line : Type :=
| Trying (payload : string) (avg_time : Q)
| Found (c : ascii) (known : string)
| NoCharacterCrossed
| Slowest (cand : string) (time_taken : Q)
| Stopping
| SecretDiscovered (known : string).

Record World : Type := {
  now : Q;
  network : list Request;
  stdout : list Line
}.

(** ** State and exception monad *)

Inductive Result (A : Type) : Type :=
| Ok (a : A)
| Raise (e : Error).
Arguments Ok {A} a.
Arguments Raise {A} e.

Definition M (A : Type) : Type := World -> Result A * World.

Definition ret {A} (a : A) : M A := fun w => (Ok a, w).

Definition bind {A B} (m : M A) (k : A -> M B) : M B :=
  fun w => match m w with
           | (Ok a, w') => k a w'
           | (Raise e, w') => (Raise e, w')
           end.

Definition raise {A} (e : Error) : M A := fun w => (Raise e, w).

Declare Scope prog_scope.
Delimit Scope prog_scope with prog.
Notation "x <- m ;; k" := (bind m (fun x => k))
  (at level 100, m at next level, right associativity) : prog_scope.
Notation "m ;; k" := (bind m (fun _ => k))
  (at level 100, right associativity) : prog_scope.
Local Open Scope prog_scope.

(** [for _ in range(n): s = body(s)] *)
Fixpoint for_range {S : Type} (n : nat) (body : S -> M S) (s : S) : M S :=
  match n with
  | O => ret s
  | Datatypes.S n' => s' <- body s ;; for_range n' body s'
  end.

(** [try: m  except RequestException: pass] *)
Definition try_except_RequestException (m : M unit) : M unit :=
  fun w => match m w with
           | (Raise RequestException, w') => (Ok tt, w')
           | r => r
           end.

(** [time.time()] *)
Definition time_time : M Q := fun w => (Ok (now w), w).

(** [print(...)] *)
Definition print (l : Line) : M unit :=
  fun w => (Ok tt, {| now := now w; network := network w;
                      stdout := stdout w ++ [l] |}).

Fixpoint print_each (ls : list Line) : M unit :=
  match ls with
  | [] => ret tt
  | l :: ls' => print l ;; print_each ls'
  end.

(** [a > b] on floats *)
Definition Qgtb (a b : Q) : bool := negb (Qle_bool a b).

(** What [for c in charset] goes through: the characters of the string,
    first to last. *)
Definition chars (cfg : Config) : list ascii :=
  list_ascii_of_string (charset cfg).

(** [known + c] *)
Definition add_char (s : string) (c : ascii) : string :=
  s ++ String c EmptyString.

(** ** [candidates.sort(key=lambda x: x[1], reverse=True)]

    Python's sort is stable also under [reverse=True]: descending by key,
    equal keys in their original order. *)
Fixpoint insert_desc (x : string * Q) (l : list (string * Q)) : list (string * Q) :=
  match l with
  | [] => [x]
  | y :: l' => if Qle_bool (snd y) (snd x) then x :: y :: l'
               else y :: insert_desc x l'
  end.

Fixpoint sort_desc (l : list (string * Q)) : list (string * Q) :=
  match l with
  | [] => []
  | x :: l' => insert_desc x (sort_desc l')
  end.

(** What one pass of the [while True] body decides. *)
Inductive State : Type :=
| Extending (known : string)
| Stalled (known : string).

Section Prober.

Variable cfg : Config.
Variable oracle : Oracle.

(** What the network makes of one request, after the history [h]. *)
Definition exchange (h : list Request) (u payload : string) (t : Q) : Request :=
  {| target := u; query := payload; timeout := t;
     failed := fst (oracle h u payload t);
     took := snd (oracle h u payload t) |}.

(** [requests.get(url, params={"q": payload}, timeout=t)]: the request is
    logged, the clock moves, and a transport failure raises. *)
Definition requests_get (u payload : string) (t : Q) : M unit :=
  fun w =>
    let r := exchange (network w) u payload t in
    (if failed r then Raise RequestException else Ok tt,
     {| now := now w + took r; network := network w ++ [r];
        stdout := stdout w |}).

(** Body of the loop of [avg_response_time] (lines 13-18). *)
Definition trial (payload : string) (total : Q) : M Q :=
  start <- time_time ;;
  try_except_RequestException (requests_get (url cfg) payload 3) ;;
  finish <- time_time ;;
  ret (total + (finish - start)).

(** [avg_response_time] (lines 10-19). *)
Definition avg_response_time (payload : string) : M Q :=
  total <- for_range (attempts_per_char cfg) (trial payload) 0 ;;
  match attempts_per_char cfg with
  | O => raise ZeroDivisionError
  | n => ret (total / inject_Z (Z.of_nat n))
  end.

(** The [for c in charset] loop (lines 25-36), from character [cs] on, with
    the [candidates] gathered so far.  Returns the accepted character (the
    [found]/[break] exit) or [None], and [candidates]. *)
Fixpoint scan (known : string) (cs : list ascii) (candidates : list (string * Q))
  : M (option ascii * list (string * Q)) :=
  match cs with
  | [] => ret (None, candidates)
  | c :: cs' =>
      let payload := add_char known c in
      avg_time <- avg_response_time payload ;;
      let candidates := candidates ++ [(payload, avg_time)] in
      print (Trying payload avg_time) ;;
      if Qgtb avg_time (threshold cfg) then
        print (Found c (add_char known c)) ;;
        ret (Some c, candidates)
      else scan known cs' candidates
  end.

(** Lines 22-36: [found = False], [candidates = []], then the loop. *)
Definition discoverNextCharacter (known : string)
  : M (option ascii * list (string * Q)) :=
  scan known (chars cfg) [].

(** Lines 39-44: the stall report. *)
Definition report (candidates : list (string * Q)) : M unit :=
  print NoCharacterCrossed ;;
  print_each (map (fun x => Slowest (fst x) (snd x))
                  (firstn 5 (sort_desc candidates))) ;;
  print Stopping.

(** One pass of the [while True] body (lines 22-45). *)
Definition iteration (known : string) : M State :=
  r <- discoverNextCharacter known ;;
  match fst r with
  | Some c => ret (Extending (add_char known c))
  | None => report (snd r) ;; ret (Stalled known)
  end.

(** [while True] (lines 21-45); [None] when the fuel runs out before the
    [break]. *)
Fixpoint loop (fuel : nat) (known : string) : M (option string) :=
  match fuel with
  | O => ret None
  | Datatypes.S fuel' =>
      s <- iteration known ;;
      match s with
      | Extending known' => loop fuel' known'
      | Stalled known' => ret (Some known')
      end
  end.

(** The whole script: the loop from the seed, then line 47. *)
Definition run (fuel : nat) : M (option string) :=
  r <- loop fuel (known cfg) ;;
  match r with
  | Some secret => print (SecretDiscovered secret) ;; ret (Some secret)
  | None => ret None
  end.

End Prober.

(** A world where nothing has happened yet. *)
Definition fresh : World := {| now := 0; network := []; stdout := [] |}.

(** ** Vocabulary of the statements *)

Fixpoint Qsum (l : list Q) : Q :=
  match l with
  | [] => 0
  | x :: l' => x + Qsum l'
  end.

(** Arithmetic mean of the elapsed times of a group of requests, over a
    repeat count [n]. *)
Definition mean_took (n : nat) (g : list Request) : Q :=
  Qsum (map took g) / inject_Z (Z.of_nat n).

(** A deterministic, stateless mock of the network: no request ever fails
    and the time a request takes depends on its payload only. *)
Definition mock (latency : string -> Q) : Oracle :=
  fun _ _ payload _ => (false, latency payload).

(** The latency of the two-character scenario: half a second exactly on
    the payloads listed in [slow], a tenth elsewhere. *)
Definition slow_on (slow : list string) (payload : string) : Q :=
  if existsb (String.eqb payload) slow then 5 # 10 else 1 # 10.

(** The lines the charset loop prints: one per measured candidate, then
    the announcement when a character was accepted. *)
Definition trying (x : string * Q) : Line := Trying (fst x) (snd x).

Definition announcement (known : string) (found : option ascii) : list Line :=
  match found with
  | Some c => [Found c (add_char known c)]
  | None => []
  end.

(** The lines of the stall report, as [report] prints them. *)
Definition slowest (x : string * Q) : Line := Slowest (fst x) (snd x).

Definition report_lines (candidates : list (string * Q)) : list Line :=
  NoCharacterCrossed :: map slowest (firstn 5 (sort_desc candidates)) ++ [Stopping].

Section Traces.

Variable cfg : Config.
Variable oracle : Oracle.

(** The requests that [n] trials for [payload] put on the network after the
    history [h]. *)
Fixpoint trials (payload : string) (n : nat) (h : list Request) : list Request :=
  match n with
  | O => []
  | Datatypes.S n' =>
      let r := exchange oracle h (url cfg) payload 3 in
      r :: trials payload n' (h ++ [r])
  end.

(** The groups of requests that measuring [known + c] for each [c] of [cs],
    in this order, puts on the network after [h]. *)
Fixpoint served (known : string) (cs : list ascii) (h : list Request)
  : list (list Request) :=
  match cs with
  | [] => []
  | c :: cs' =>
      let g := trials (add_char known c) (attempts_per_char cfg) h in
      g :: served known cs' (h ++ g)
  end.

(** [g] is one measurement of candidate [cand]: the full repeat count of
    requests, all of them for the candidate's payload, and the candidate's
    figure is their mean. *)
Definition Measured (cand : string * Q) (g : list Request) : Prop :=
  length g = attempts_per_char cfg /\
  Forall (fun r => target r = url cfg /\ query r = fst cand) g /\
  snd cand == mean_took (attempts_per_char cfg) g.

(** The configurations of a run: the known prefix and the world, linked by
    the passes of the loop body that end in [Extending]. *)
Inductive Reaches : string -> World -> string -> World -> Prop :=
| reaches_refl k w : Reaches k w k w
| reaches_step k w k' w' k'' w'' :
    iteration cfg oracle k w = (Ok (Extending k'), w') ->
    Reaches k' w' k'' w'' ->
    Reaches k w k'' w''.

End Traces.

(** [x] may stand before [y] in a list that is descending by latency. *)
Definition slower_first (x y : string * Q) : Prop := snd y <= snd x.

(** The charset loop as the spec words it, for a latency that is a function
    of the payload: the first character, in charset order, whose latency
    strictly exceeds the threshold. *)
Definition first_above (cfg : Config) (latency : string -> Q) (known : string)
  : option ascii :=
  find (fun c => Qgtb (latency (add_char known c)) (threshold cfg))
       (chars cfg).

(** The state machine of the spec over such a latency: [Extending] appends
    the discovered character, [Stalled] reports the prefix. *)
Fixpoint reconstruct (cfg : Config) (latency : string -> Q) (fuel : nat)
         (known : string) : option string :=
  match fuel with
  | O => None
  | Datatypes.S fuel' =>
      match first_above cfg latency known with
      | Some c => reconstruct cfg latency fuel' (add_char known c)
      | None => Some known
      end
  end.

(** The number a line of output shows, when it shows one. *)
Definition shown (l : Line) : option Q :=
  match l with
  | Trying _ avg_time => Some avg_time
  | Slowest _ time_taken => Some time_taken
  | _ => None
  end.

Definition shows (t : Q) (l : Line) : bool :=
  match shown l with
  | Some t' => Qeq_bool t' t
  | None => false
  end.

(** The lines printed while the prober is still extending. *)
Definition is_progress (l : Line) : Prop :=
  match l with
  | Trying _ _ | Found _ _ => True
  | _ => False
  end.

(** ** Some networks and configurations to run the script on *)

(** Every connection is refused: the request fails after 10 ms. *)
Definition refused : Oracle := fun _ _ _ _ => (true, 1 # 100).

(** Every request is answered, but the answer trickles in for 5 s: no
    single wait on the socket reaches the timeout. *)
Definition trickling : Oracle := fun _ _ _ _ => (false, 5).

(** The wall clock is set back while each request is under way:
    [time.time()] reads one second less after it than before (it follows
    the system clock, and is documented to return a lower value than a
    previous call when that clock has been set back in between). *)
Definition clock_set_back : Oracle := fun _ _ _ _ => (false, -1).

(** The very first connection is refused after 10 ms; every later request
    is answered in 100 ms. *)
Definition refused_once : Oracle :=
  fun h _ _ _ =>
    match h with
    | [] => (true, 1 # 100)
    | _ :: _ => (false, 1 # 10)
    end.

(** The very first request takes a second; every later one is instant. *)
Definition spike : Oracle :=
  fun h _ _ _ =>
    match h with
    | [] => (false, 1)
    | _ :: _ => (false, 0)
    end.

(** The configuration of the spec's scenario: two characters, no seed. *)
Definition ab : Config := {|
  url := url tic;
  charset := "AB";
  threshold := 3 # 10;
  attempts_per_char := attempts_per_char tic;
  known := ""
|}.

(** The characters the discovery announcements name, in the order of the
    output. *)
Fixpoint announced (ls : list Line) : list ascii :=
  match ls with
  | [] => []
  | Found c _ :: ls' => c :: announced ls'
  | _ :: ls' => announced ls'
  end.

(** How many lines of the output report a measured candidate. *)
Fixpoint count_trying (ls : list Line) : nat :=
  match ls with
  | [] => O
  | Trying _ _ :: ls' => Datatypes.S (count_trying ls')
  | _ :: ls' => count_trying ls'
  end.

(** A request the prober may send from prefix [k]: a GET to the configured
    URL, with the 3 s timeout, whose payload is [k] and one character of
    the charset. *)
Definition ProbeAt (cfg : Config) (k : string) (r : Request) : Prop :=
  target r = url cfg /\ timeout r = 3 /\
  exists c, In c (chars cfg) /\ query r = add_char k c.

(** The same, from any prefix a run can be at: the seed followed by
    characters of the charset. *)
Definition Probe (cfg : Config) (r : Request) : Prop :=
  exists suffix,
    Forall (fun c => In c (chars cfg)) suffix /\
    ProbeAt cfg (known cfg ++ string_of_list_ascii suffix) r.

(** The candidates of [l] whose latency is [v], in the order of [l]. *)
Definition with_latency (v : Q) (l : list (string * Q)) : list (string * Q) :=
  filter (fun x => Qeq_bool (snd x) v) l.

(** * The prober in binary64

    The same script once more, with the seconds as the IEEE 754 binary64
    numbers Python computes with: [+], [-] and [/] round to nearest, [>]
    and the sort compare doubles.  This embedding is for what depends on
    rounding; it is run, not reasoned about in general. *)

Record Config64 : Type := {
  url64 : string;
  charset64 : string;
  threshold64 : float;
  attempts_per_char64 : nat;
  known64 : string
}.

Record Request64 : Type := {
  target64 : string;
  query64 : string;
  timeout64 : float;
  failed64 : bool;
  took64 : float
}.

Definition Oracle64 : Type :=
  list Request64 -> string -> string -> float -> bool * float.

Inductive Line64 : Type :=
| Trying64 (payload : string) (avg_time : float)
| Found64 (c : ascii) (known : string)
| NoCharacterCrossed64
| Slowest64 (cand : string) (time_taken : float)
| Stopping64
| SecretDiscovered64 (known : string).

Record World64 : Type := {
  now64 : float;
  network64 : list Request64;
  stdout64 : list Line64
}.

Definition M64 (A : Type) : Type := World64 -> Result A * World64.

Definition ret64 {A} (a : A) : M64 A := fun w => (Ok a, w).

Definition bind64 {A B} (m : M64 A) (k : A -> M64 B) : M64 B :=
  fun w => match m w with
           | (Ok a, w') => k a w'
           | (Raise e, w') => (Raise e, w')
           end.

Definition raise64 {A} (e : Error) : M64 A := fun w => (Raise e, w).

Declare Scope prog64_scope.
Delimit Scope prog64_scope with prog64.
Notation "x <- m ;; k" := (bind64 m (fun x => k))
  (at level 100, m at next level, right associativity) : prog64_scope.
Notation "m ;; k" := (bind64 m (fun _ => k))
  (at level 100, right associativity) : prog64_scope.

Fixpoint for_range64 {S : Type} (n : nat) (body : S -> M64 S) (s : S) : M64 S :=
  match n with
  | O => ret64 s
  | Datatypes.S n' => bind64 (body s) (for_range64 n' body)
  end.

Definition try_except_RequestException64 (m : M64 unit) : M64 unit :=
  fun w => match m w with
           | (Raise RequestException, w') => (Ok tt, w')
           | r => r
           end.

Definition time_time64 : M64 float := fun w => (Ok (now64 w), w).

Definition print64 (l : Line64) : M64 unit :=
  fun w => (Ok tt, {| now64 := now64 w; network64 := network64 w;
                      stdout64 := stdout64 w ++ [l] |}).

Fixpoint print_each64 (ls : list Line64) : M64 unit :=
  match ls with
  | [] => ret64 tt
  | l :: ls' => bind64 (print64 l) (fun _ => print_each64 ls')
  end.

(** [float(n)] for the repeat count *)
Definition float_of_nat (n : nat) : float :=
  PrimFloat.of_uint63 (Uint63.of_Z (Z.of_nat n)).

Fixpoint insert_desc64 (x : string * float) (l : list (string * float))
  : list (string * float) :=
  match l with
  | [] => [x]
  | y :: l' => if PrimFloat.leb (snd y) (snd x) then x :: y :: l'
               else y :: insert_desc64 x l'
  end.

Fixpoint sort_desc64 (l : list (string * float)) : list (string * float) :=
  match l with
  | [] => []
  | x :: l' => insert_desc64 x (sort_desc64 l')
  end.

Section Prober64.

Variable cfg : Config64.
Variable oracle : Oracle64.

Local Open Scope prog64_scope.

Definition exchange64 (h : list Request64) (u payload : string) (t : float)
  : Request64 :=
  {| target64 := u; query64 := payload; timeout64 := t;
     failed64 := fst (oracle h u payload t);
     took64 := snd (oracle h u payload t) |}.

Definition requests_get64 (u payload : string) (t : float) : M64 unit :=
  fun w =>
    let r := exchange64 (network64 w) u payload t in
    (if failed64 r then Raise RequestException else Ok tt,
     {| now64 := PrimFloat.add (now64 w) (took64 r);
        network64 := network64 w ++ [r];
        stdout64 := stdout64 w |}).

(** Lines 13-18: [total += time.time() - start], in doubles. *)
Definition trial64 (payload : string) (total : float) : M64 float :=
  start <- time_time64 ;;
  try_except_RequestException64 (requests_get64 (url64 cfg) payload 3%float) ;;
  finish <- time_time64 ;;
  ret64 (PrimFloat.add total (PrimFloat.sub finish start)).

(** Lines 10-19: [total / attempts_per_char], in doubles. *)
Definition avg_response_time64 (payload : string) : M64 float :=
  total <- for_range64 (attempts_per_char64 cfg) (trial64 payload) 0%float ;;
  match attempts_per_char64 cfg with
  | O => raise64 ZeroDivisionError
  | n => ret64 (PrimFloat.div total (float_of_nat n))
  end.

Fixpoint scan64 (known : string) (cs : list ascii)
         (candidates : list (string * float))
  : M64 (option ascii * list (string * float)) :=
  match cs with
  | [] => ret64 (None, candidates)
  | c :: cs' =>
      let payload := add_char known c in
      avg_time <- avg_response_time64 payload ;;
      let candidates := candidates ++ [(payload, avg_time)] in
      print64 (Trying64 payload avg_time) ;;
      if PrimFloat.ltb (threshold64 cfg) avg_time then
        print64 (Found64 c (add_char known c)) ;;
        ret64 (Some c, candidates)
      else scan64 known cs' candidates
  end.

Definition discoverNextCharacter64 (known : string)
  : M64 (option ascii * list (string * float)) :=
  scan64 known (list_ascii_of_string (charset64 cfg)) [].

Definition report64 (candidates : list (string * float)) : M64 unit :=
  print64 NoCharacterCrossed64 ;;
  print_each64 (map (fun x => Slowest64 (fst x) (snd x))
                    (firstn 5 (sort_desc64 candidates))) ;;
  print64 Stopping64.

Definition iteration64 (known : string) : M64 State :=
  r <- discoverNextCharacter64 known ;;
  match fst r with
  | Some c => ret64 (Extending (add_char known c))
  | None => report64 (snd r) ;; ret64 (Stalled known)
  end.

Fixpoint loop64 (fuel : nat) (known : string) : M64 (option string) :=
  match fuel with
  | O => ret64 None
  | Datatypes.S fuel' =>
      s <- iteration64 known ;;
      match s with
      | Extending known' => loop64 fuel' known'
      | Stalled known' => ret64 (Some known')
      end
  end.

Definition run64 (fuel : nat) : M64 (option string) :=
  r <- loop64 fuel (known64 cfg) ;;
  match r with
  | Some secret => print64 (SecretDiscovered64 secret) ;; ret64 (Some secret)
  | None => ret64 None
  end.

End Prober64.

Definition fresh64 : World64 :=
  {| now64 := 0%float; network64 := []; stdout64 := [] |}.

(** The double nearest to 0.1, [0x1.999999999999ap-4]. *)
Definition tenth : float := 0x1.999999999999ap-4%float.

(** Two characters, no seed, three trials per candidate, and a threshold of
    [0.1]. *)
Definition near_threshold : Config64 := {|
  url64 := url tic;
  charset64 := "ab";
  threshold64 := tenth;
  attempts_per_char64 := 3;
  known64 := ""
|}.

(** Half a second on the prefixes of "b", [0.1] s on every other payload. *)
Definition half_on_b (payload : string) : float :=
  if prefix payload "b" then 0.5%float else tenth.

(** A never-failing network whose latency is a function of the payload. *)
Definition mock64 (latency : string -> float) : Oracle64 :=
  fun _ _ payload _ => (false, latency payload).

(** * The guessing script ([op.py])

    [SmartCTFSolver.analyze_patterns] and [SmartCTFSolver.try_smart_guesses],
    with [create_session].  Library behaviour the script relies on is kept
    abstract where it is not the script's own: [hashlib.md5(..).hexdigest()]
    and the order in which [list(set(..))] lists a set are parameters, and
    the server is an oracle over the posts made so far. *)

Module Op.

Local Open Scope Z_scope.

(** What [datetime.datetime.now()] returned; [timestamp] is
    [int(now.timestamp())]. *)
Record Now : Type := {
  year : Z; month : Z; day : Z;
  hour : Z; minute : Z; second : Z;
  timestamp : Z
}.

#[local] Set Warnings "-register-all".

(** A decoded JSON document, as [response.json()] hands it over; an object
    is the decoded dict, a key being looked up at its first binding. *)
Inductive Json : Type :=
| JNull
| JBool (b : bool)
| JNumber (x : Q)
| JString (s : string)
| JArray (l : list Json)
| JObject (m : list (string * Json)).

Inductive Exn : Type :=
| TransportError
| JSONDecodeError
| TypeError
| KeyError
| ValueError.

Inductive Res (A : Type) : Type :=
| Val (a : A)
| Exc (e : Exn).
Arguments Val {A} a.
Arguments Exc {A} e.

(** [key in x] *)
Definition py_in (key : string) (x : Json) : Res bool :=
  match x with
  | JObject m => Val (existsb (fun kv => String.eqb (fst kv) key) m)
  | JArray l =>
      Val (existsb (fun e => match e with
                             | JString s => String.eqb s key
                             | _ => false
                             end) l)
  | JString s =>
      Val (match index 0 key s with Some _ => true | None => false end)
  | _ => Exc TypeError
  end.

(** [x[key]] for a string key *)
Definition getitem (x : Json) (key : string) : Res Json :=
  match x with
  | JObject m =>
      match find (fun kv => String.eqb (fst kv) key) m with
      | Some kv => Val (snd kv)
      | None => Exc KeyError
      end
  | _ => Exc TypeError
  end.

(** Truth value of [x] in an [if]. *)
Definition truthy (x : Json) : bool :=
  match x with
  | JNull => false
  | JBool b => b
  | JNumber q => negb (Qeq_bool q 0)
  | JString s => negb (String.eqb s "")
  | JArray l => match l with [] => false | _ => true end
  | JObject m => match m with [] => false | _ => true end
  end.

(** The value of one hex digit. *)
Definition hex_digit (c : ascii) : option Z :=
  let n := Z.of_nat (nat_of_ascii c) in
  if (48 <=? n) && (n <=? 57) then Some (n - 48)
  else if (97 <=? n) && (n <=? 102) then Some (n - 87)
  else if (65 <=? n) && (n <=? 70) then Some (n - 55)
  else None.

Fixpoint int16_from (acc : Z) (s : string) : Res Z :=
  match s with
  | EmptyString => Val acc
  | String c s' =>
      match hex_digit c with
      | Some d => int16_from (16 * acc + d) s'
      | None => Exc ValueError
      end
  end.

(** [int(s, 16)] on a string of hex digits, which is all a hexdigest
    holds: there it is Python's value.  The empty string and a character
    that is no hex digit raise [ValueError] here; Python's [int] also
    accepts surrounding blanks, a sign, a [0x] prefix and single
    underscores between digits, which this definition does not model and
    no statement below relies on. *)
Definition int16 (s : string) : Res Z :=
  match s with
  | EmptyString => Exc ValueError
  | _ => int16_from 0 s
  end.

(** [sum(ord(c) for c in s)] *)
Fixpoint ord_sum (s : string) : Z :=
  match s with
  | EmptyString => 0
  | String c s' => Z.of_nat (nat_of_ascii c) + ord_sum s'
  end.

(** [s[:5]] and [s[-5:]] *)
Definition first5 (s : string) : string := substring 0 5 s.
Definition last5 (s : string) : string :=
  substring (String.length s - 5) 5 s.

(** Lines 149-155. *)
Definition time_patterns (now : Now) : list Z :=
  [ hour now * 100 + minute now;
    day now * 100 + month now;
    year now;
    timestamp now mod 100000;
    hour now * 1000 + minute now * 10 + second now / 10 ].

(** Lines 164-168. *)
Definition hash_patterns (cookie_hash : string) : Res (list Z) :=
  match int16 (first5 cookie_hash) with
  | Exc e => Exc e
  | Val a =>
      match int16 (last5 cookie_hash) with
      | Exc e => Exc e
      | Val b => Val [a mod 100000; b mod 100000; ord_sum cookie_hash mod 100000]
      end
  end.

(** [1 <= n <= 100000] *)
Definition in_range (n : Z) : bool := (1 <=? n) && (n <=? 100000).

(** Lines 185-188. *)
Definition ctf_numbers : list Z :=
  [1337; 31337; 42; 69; 420; 666; 777; 1234; 12345;
   2023; 2024; 1000; 10000; 99999; 12321; 54321].

(** [str(n)] for an int *)
Definition dec (n : Z) : string := NilZero.string_of_int (Z.to_int n).

Definition nl : string := String (ascii_of_nat 10) EmptyString.

Fixpoint spaces (n : nat) : string :=
  match n with
  | O => EmptyString
  | S n' => String " " (spaces n')
  end.

(** The f-string of lines 198-206. *)
Definition guess_query (number : Z) : string :=
  (nl ++ spaces 16 ++ "query {" ++ nl
      ++ spaces 20 ++ "guessNumber(number: " ++ dec number ++ ") {" ++ nl
      ++ spaces 24 ++ "correct" ++ nl
      ++ spaces 24 ++ "message" ++ nl
      ++ spaces 24 ++ "flag" ++ nl
      ++ spaces 20 ++ "}" ++ nl
      ++ spaces 16 ++ "}" ++ nl
      ++ spaces 12)%string.

(** The headers and cookies the script sets on its [requests.Session]. *)
Record Session : Type := {
  headers : list (string * string);
  cookies : list (string * string)
}.

(** One [session.post(url, json={"query": query}, timeout=t)]. *)
Record Post : Type := {
  session : Session;
  post_url : string;
  post_query : string;
  post_timeout : Z
}.

(** What came back: [json] is [None] when [response.json()] raises. *)
Record Response : Type := {
  status_code : Z;
  ok : bool;
  json : option Json
}.

Inductive Reply : Type :=
| Raised
| Responded (r : Response).

(** The server: its reply to a post, given the posts made before it
    (oldest first). *)
Definition Server : Type := list Post -> Post -> Reply.

Inductive Printed : Type :=
| AnalyzingPatterns
| TimeHeader
| HashHeader
| PatternLine (pattern : Z)
| TryingSmartGuesses
| TryingCount (n : nat)
| Attempt (i total : nat) (number : Z)
| RateLimited
| Success (number : Z) (flag : Json)
| Incorrect (number : Z)
| ErrorWith (number : Z) (e : Exn).

Record Env : Type := {
  wall : Now;
  posts : list Post;
  slept : list Z;
  console : list Printed
}.

Definition Cmd (A : Type) : Type := Env -> Res A * Env.

Definition pure {A} (a : A) : Cmd A := fun w => (Val a, w).

Definition and_then {A B} (m : Cmd A) (k : A -> Cmd B) : Cmd B :=
  fun w => match m w with
           | (Val a, w') => k a w'
           | (Exc e, w') => (Exc e, w')
           end.

(** A pure computation that may raise. *)
Definition lift {A} (r : Res A) : Cmd A := fun w => (r, w).

(** [try: m  except Exception as e: handler(e)] *)
Definition try_except {A} (m : Cmd A) (handler : Exn -> Cmd A) : Cmd A :=
  fun w => match m w with
           | (Exc e, w') => handler e w'
           | r => r
           end.

Declare Scope op_scope.
Delimit Scope op_scope with op.
Notation "x <- m ;; k" := (and_then m (fun x => k))
  (at level 100, m at next level, right associativity) : op_scope.
Notation "m ;; k" := (and_then m (fun _ => k))
  (at level 100, right associativity) : op_scope.
Local Open Scope op_scope.

(** [print(...)] *)
Definition print_line (l : Printed) : Cmd unit :=
  fun w => (Val tt, {| wall := wall w; posts := posts w; slept := slept w;
                       console := console w ++ [l] |}).

Fixpoint print_lines (ls : list Printed) : Cmd unit :=
  match ls with
  | [] => pure tt
  | l :: ls' => print_line l ;; print_lines ls'
  end.

(** [time.sleep(seconds)] *)
Definition sleep (seconds : Z) : Cmd unit :=
  fun w => (Val tt, {| wall := wall w; posts := posts w;
                       slept := slept w ++ [seconds]; console := console w |}).

(** [datetime.datetime.now()] *)
Definition datetime_now : Cmd Now := fun w => (Val (wall w), w).

Section Solver.

(** [self.base_url], [self.session_cookie] *)
Variable base_url : string.
Variable session_cookie : string.

(** [hashlib.md5(s.encode()).hexdigest()] *)
Variable md5_hexdigest : string -> string.

(** [list(set(l))]: the elements of [l], each once, in the order the set
    iterates. *)
Variable list_of_set : list Z -> list Z.

Variable oracle : Server.

(** Lines 13-23. *)
Definition create_session : Session := {|
  headers :=
    [ ("Content-Type", "application/json");
      ("User-Agent",
       "Mozilla/5.0 (X11; Linux x86_64; rv:128.0) Gecko/20100101 Firefox/128.0");
      ("Accept", "*/*");
      ("Origin", base_url) ]%string;
  cookies := [ ("connect.sid", session_cookie) ]%string
|}.

(** [session.post(u, json={"query": query}, timeout=t)] *)
Definition session_post (s : Session) (u q : string) (t : Z) : Cmd Response :=
  fun w =>
    let p := {| session := s; post_url := u; post_query := q; post_timeout := t |} in
    let w' := {| wall := wall w; posts := posts w ++ [p]; slept := slept w;
                 console := console w |} in
    match oracle (posts w) p with
    | Raised => (Exc TransportError, w')
    | Responded r => (Val r, w')
    end.

(** [response.json()] *)
Definition response_json (r : Response) : Cmd Json :=
  match json r with
  | Some data => pure data
  | None => lift (Exc JSONDecodeError)
  end.

(** Lines 143-174. *)
Definition analyze_patterns : Cmd (list Z) :=
  print_line AnalyzingPatterns ;;
  now <- datetime_now ;;
  let time_patterns := time_patterns now in
  print_line TimeHeader ;;
  print_lines (map PatternLine (filter in_range time_patterns)) ;;
  let cookie_hash := md5_hexdigest session_cookie in
  hash_patterns <- lift (hash_patterns cookie_hash) ;;
  print_line HashHeader ;;
  print_lines (map PatternLine hash_patterns) ;;
  pure (time_patterns ++ hash_patterns).

(** ['data' in data and data['data']['guessNumber']['correct']], as the
    [if] reads it. *)
Definition answered_correct (data : Json) : Cmd bool :=
  has <- lift (py_in "data" data) ;;
  if has then
    d <- lift (getitem data "data") ;;
    g <- lift (getitem d "guessNumber") ;;
    c <- lift (getitem g "correct") ;;
    pure (truthy c)
  else pure false.

(** The body of the [try] of lines 208-229 for one number; [Some flag] is
    the [return flag], [None] goes on with the next number. *)
Definition post_guess (s : Session) (number : Z) : Cmd (option Json) :=
  response <- session_post s (base_url ++ "/graphql") (guess_query number) 10 ;;
  if status_code response =? 429 then
    print_line RateLimited ;;
    sleep 5 ;;
    pure None
  else
    found <- (if ok response then
                data <- response_json response ;;
                correct <- answered_correct data ;;
                if correct then
                  d <- lift (getitem data "data") ;;
                  g <- lift (getitem d "guessNumber") ;;
                  flag <- lift (getitem g "flag") ;;
                  print_line (Success number flag) ;;
                  pure (Some flag)
                else
                  print_line (Incorrect number) ;;
                  pure None
              else pure None) ;;
    match found with
    | Some flag => pure (Some flag)
    | None => sleep 2 ;; pure None
    end.

(** One pass of the loop of lines 195-232. *)
Definition attempt (s : Session) (total i : nat) (number : Z) : Cmd (option Json) :=
  print_line (Attempt (i + 1) total number) ;;
  try_except (post_guess s number)
             (fun e => print_line (ErrorWith number e) ;; pure None).

(** [for i, number in enumerate(all_guesses)], from index [i] on. *)
Fixpoint guess_loop (s : Session) (total i : nat) (guesses : list Z)
  : Cmd (option Json) :=
  match guesses with
  | [] => pure None
  | number :: rest =>
      r <- attempt s total i number ;;
      match r with
      | Some flag => pure (Some flag)
      | None => guess_loop s total (S i) rest
      end
  end.

(** Lines 190-191. *)
Definition all_guesses (patterns : list Z) : list Z :=
  filter in_range (list_of_set (patterns ++ ctf_numbers)).

(** Lines 176-234. *)
Definition try_smart_guesses : Cmd (option Json) :=
  print_line TryingSmartGuesses ;;
  let s := create_session in
  patterns <- analyze_patterns ;;
  let all_guesses := all_guesses patterns in
  print_line (TryingCount (length all_guesses)) ;;
  guess_loop s (length all_guesses) 0 all_guesses.

End Solver.

(** [needle in content] on strings *)
Definition contains (needle content : string) : bool :=
  match index 0 needle content with
  | Some _ => true
  | None => false
  end.

(** The words of line 254. *)
Definition suspicious : list string :=
  ["hint"; "answer"; "secret"; "flag"; "number"]%string.

(** [word not in ['number', 'flag']] *)
Definition excluded (word : string) : bool :=
  existsb (String.eqb word) ["number"; "flag"]%string.

(** Lines 249-257 of [check_for_hints]: what is appended to [hints] for a
    page whose lower-cased text is [content]. *)
Definition page_hints (content : string) : list string :=
  List.app
    (if contains "<!--" content then ["HTML comments found"%string] else [])
    (map (fun word => ("Found '" ++ word ++ "' in page source")%string)
         (filter (fun word => contains word content && negb (excluded word))
                 suspicious)).

(** A well-formed reading of the clock. *)
Definition valid_now (now : Now) : Prop :=
  1 <= year now <= 9999 /\ 1 <= month now <= 12 /\ 1 <= day now <= 31 /\
  0 <= hour now <= 23 /\ 0 <= minute now <= 59 /\ 0 <= second now <= 59.

Definition is_lower_hex (c : ascii) : bool :=
  let n := Z.of_nat (nat_of_ascii c) in
  ((48 <=? n) && (n <=? 57)) || ((97 <=? n) && (n <=? 102)).

(** What a hexdigest of MD5 looks like: 32 lower-case hex digits. *)
Definition is_hexdigest (s : string) : Prop :=
  String.length s = 32%nat /\
  forallb is_lower_hex (list_ascii_of_string s) = true.

(** What [list(set(l))] guarantees whatever the order. *)
Definition lists_sets (list_of_set : list Z -> list Z) : Prop :=
  forall l, NoDup (list_of_set l) /\
            forall x, In x (list_of_set l) <-> In x l.

(** The post the loop makes for one number. *)
Definition guess_post (s : Session) (base_url : string) (number : Z) : Post :=
  {| session := s; post_url := (base_url ++ "/graphql")%string;
     post_query := guess_query number; post_timeout := 10 |}.

(** The posts the loop makes for the first [k] numbers of [gs]. *)
Definition sent (s : Session) (base_url : string) (gs : list Z) (k : nat)
  : list Post :=
  map (guess_post s base_url) (firstn k gs).

(** A reply that the loop takes for a correct guess, with the flag it then
    returns: any status but 429, [ok], a JSON body in which
    [data.guessNumber.correct] is true in an [if] and
    [data.guessNumber.flag] exists. *)
Definition Correct (reply : Reply) (flag : Json) : Prop :=
  exists resp data d g c,
    reply = Responded resp /\ status_code resp <> 429 /\ ok resp = true /\
    json resp = Some data /\ py_in "data" data = Val true /\
    getitem data "data" = Val d /\ getitem d "guessNumber" = Val g /\
    getitem g "correct" = Val c /\ truthy c = true /\
    getitem g "flag" = Val flag.

(** The numbers the loop announces, in order. *)
Fixpoint attempted (ls : list Printed) : list Z :=
  match ls with
  | [] => []
  | Attempt _ _ number :: ls' => number :: attempted ls'
  | _ :: ls' => attempted ls'
  end.

(** A reading of the clock, a world and the MD5 hexdigest of the empty
    string, to run the script on. *)
Definition noon : Now := {|
  year := 2025; month := 6; day := 14;
  hour := 12; minute := 0; second := 0;
  timestamp := 1749902400
|}.

Definition start : Env :=
  {| wall := noon; posts := []; slept := []; console := [] |}.

Definition digest_of_empty : string := "d41d8cd98f00b204e9800998ecf8427e".

End Op.

(** * Proofs *)

(** ** The monad and the averaging loop *)

Lemma Qsum_app (l1 l2 : list Q) : Qsum (l1 ++ l2) == Qsum l1 + Qsum l2.
Proof.
  induction l1 as [|x l1 IH]; cbn [Qsum app].
  - ring.
  - rewrite IH. ring.
Qed.

Section MeasureFacts.

Variable cfg : Config.
Variable oracle : Oracle.

Lemma trial_run (payload : string) (total : Q) (w : World) :
  let r := exchange oracle (network w) (url cfg) payload 3 in
  trial cfg oracle payload total w =
  (Ok (total + (now w + took r - now w)),
   {| now := now w + took r; network := network w ++ [r];
      stdout := stdout w |}).
Proof.
  unfold trial, bind, time_time, try_except_RequestException, requests_get, ret.
  cbn [now network stdout].
  destruct (failed (exchange oracle (network w) (url cfg) payload 3)); reflexivity.
Qed.

Lemma trials_length (payload : string) (n : nat) (h : list Request) :
  length (trials cfg oracle payload n h) = n.
Proof.
  revert h; induction n as [|n IH]; intros h; cbn [trials length].
  - reflexivity.
  - now rewrite IH.
Qed.

Lemma trials_query (payload : string) (n : nat) (h : list Request) :
  Forall (fun r => target r = url cfg /\ query r = payload)
         (trials cfg oracle payload n h).
Proof.
  revert h; induction n as [|n IH]; intros h; cbn [trials].
  - constructor.
  - constructor; [split; reflexivity | apply IH].
Qed.

Lemma for_range_trial (payload : string) (n : nat) :
  forall (total : Q) (w : World),
  exists (t : Q) (w' : World),
    for_range n (trial cfg oracle payload) total w = (Ok t, w') /\
    network w' = network w ++ trials cfg oracle payload n (network w) /\
    stdout w' = stdout w /\
    t == total + Qsum (map took (trials cfg oracle payload n (network w))).
Proof.
  induction n as [|n IH]; intros total w.
  - exists total, w. cbn [for_range trials map Qsum]. unfold ret.
    rewrite app_nil_r. repeat split; try reflexivity. ring.
  - cbn [for_range]. unfold bind at 1. rewrite trial_run.
    set (r := exchange oracle (network w) (url cfg) payload 3).
    destruct (IH (total + (now w + took r - now w))
                 {| now := now w + took r; network := network w ++ [r];
                    stdout := stdout w |})
      as (t & w' & Hrun & Hnet & Hout & Ht).
    exists t, w'. cbn [network stdout] in Hnet, Hout.
    repeat split.
    + exact Hrun.
    + rewrite Hnet. cbn [trials]. fold r. now rewrite <- app_assoc.
    + exact Hout.
    + rewrite Ht. cbn [trials map Qsum]. fold r. cbn [network]. ring.
Qed.

(** [avg_response_time] with a positive repeat count: it returns, it has put
    exactly the trials for [payload] on the network, printed nothing, and
    its value is their mean. *)
Lemma avg_response_time_run (payload : string) (w : World) :
  attempts_per_char cfg <> O ->
  exists (a : Q) (w' : World),
    avg_response_time cfg oracle payload w = (Ok a, w') /\
    network w' =
      network w ++ trials cfg oracle payload (attempts_per_char cfg) (network w) /\
    stdout w' = stdout w /\
    a == mean_took (attempts_per_char cfg)
           (trials cfg oracle payload (attempts_per_char cfg) (network w)).
Proof.
  intros Hn. unfold avg_response_time, bind.
  destruct (for_range_trial payload (attempts_per_char cfg) 0 w)
    as (t & w' & Hrun & Hnet & Hout & Ht).
  rewrite Hrun.
  destruct (attempts_per_char cfg) as [|m] eqn:En; [congruence|].
  exists (t / inject_Z (Z.of_nat (Datatypes.S m))), w'. unfold ret.
  repeat split; try assumption.
  unfold mean_took. rewrite Ht. rewrite Qplus_0_l. reflexivity.
Qed.

(** With a zero repeat count the division raises. *)
Lemma avg_response_time_zero (payload : string) (w : World) :
  attempts_per_char cfg = O ->
  avg_response_time cfg oracle payload w = (Raise ZeroDivisionError, w).
Proof.
  intros Hn. unfold avg_response_time, bind. rewrite Hn. reflexivity.
Qed.

End MeasureFacts.

(** ** The charset loop *)

Lemma Qgtb_lt (a b : Q) : Qgtb a b = true <-> b < a.
Proof.
  unfold Qgtb. rewrite negb_true_iff. split.
  - intros H. apply Qnot_le_lt. intros Hle.
    apply Qle_bool_iff in Hle. congruence.
  - intros H. destruct (Qle_bool a b) eqn:E; [|reflexivity].
    apply Qle_bool_iff in E. exfalso. now apply (Qlt_not_le b a).
Qed.

Lemma Qgtb_le (a b : Q) : Qgtb a b = false <-> a <= b.
Proof.
  unfold Qgtb. rewrite negb_false_iff. apply Qle_bool_iff.
Qed.

Lemma Qgtb_compat (a a' b : Q) : a == a' -> Qgtb a b = Qgtb a' b.
Proof.
  intros H. destruct (Qgtb a' b) eqn:E.
  - apply Qgtb_lt. apply Qgtb_lt in E. now rewrite H.
  - apply Qgtb_le. apply Qgtb_le in E. now rewrite H.
Qed.

Section ScanFacts.

Variable cfg : Config.
Variable oracle : Oracle.
Hypothesis Hn : attempts_per_char cfg <> O.

(** What the loop over [cs] does, whatever it starts from: it stops at the
    first character whose measurement exceeds the threshold. *)
Lemma scan_run (known : string) (cs : list ascii) :
  forall (cands0 : list (string * Q)) (w : World),
  exists (found : option ascii) (new : list (string * Q)) (w' : World)
         (tried rest : list ascii),
    scan cfg oracle known cs cands0 w = (Ok (found, cands0 ++ new), w') /\
    cs = tried ++ rest /\
    map fst new = map (add_char known) tried /\
    Forall2 (Measured cfg)
            new (served cfg oracle known tried (network w)) /\
    network w' = network w ++ concat (served cfg oracle known tried (network w)) /\
    stdout w' = stdout w ++ map trying new ++ announcement known found /\
    match found with
    | Some c =>
        exists before slow a,
          tried = before ++ [c] /\
          new = slow ++ [(add_char known c, a)] /\
          Forall (fun x => snd x <= threshold cfg) slow /\
          threshold cfg < a
    | None => rest = [] /\ Forall (fun x => snd x <= threshold cfg) new
    end.
Proof.
  induction cs as [|c cs IH]; intros cands0 w.
  - exists None, [], w, [], []. cbn [scan served concat map announcement].
    unfold ret. rewrite !app_nil_r. repeat split; constructor.
  - cbn [scan]. unfold bind at 1.
    destruct (avg_response_time_run cfg oracle (add_char known c) w Hn)
      as (a & w1 & Hrun & Hnet1 & Hout1 & Ha).
    rewrite Hrun. unfold bind at 1. unfold print at 1.
    set (w2 := {| now := now w1; network := network w1;
                  stdout := stdout w1 ++ [Trying (add_char known c) a] |}).
    destruct (Qgtb a (threshold cfg)) eqn:Egt.
    + exists (Some c), [(add_char known c, a)].
      eexists. exists [c], cs.
      unfold bind, print, ret.
      split; [reflexivity|].
      subst w2.
      cbn [served concat map announcement app fst snd trying network stdout].
      unfold trying; cbn [fst snd].
      rewrite app_nil_r, Hnet1, Hout1, <- app_assoc.
      repeat split.
      * constructor; [|constructor].
        repeat split; [apply trials_length | apply trials_query | exact Ha].
      * exists [], [], a. repeat split; try constructor.
        now apply Qgtb_lt.
    + destruct (IH (cands0 ++ [(add_char known c, a)]) w2)
        as (found & new & w' & tried & rest & Hscan & Hcs & Hfst & Hmean
            & Hnet & Hout & Hfound).
      exists found, ((add_char known c, a) :: new), w', (c :: tried), rest.
      rewrite <- app_assoc in Hscan. cbn [app] in Hscan.
      subst w2. cbn [network stdout] in *.
      rewrite Hnet1 in Hmean, Hnet.
      split; [exact Hscan|].
      cbn [served concat map app fst snd trying].
      repeat split.
      * now rewrite Hcs.
      * now rewrite Hfst.
      * constructor; [|exact Hmean].
        repeat split; [apply trials_length | apply trials_query | exact Ha].
      * rewrite Hnet. now rewrite <- app_assoc.
      * rewrite Hout, Hout1, <- app_assoc. reflexivity.
      * apply Qgtb_le in Egt.
        destruct found as [c'|].
        -- destruct Hfound as (before & slow & a' & -> & -> & Hslow & Hlt).
           exists (c :: before), ((add_char known c, a) :: slow), a'.
           repeat split; try assumption.
           constructor; assumption.
        -- destruct Hfound as [-> Hall]. split; [reflexivity|].
           constructor; assumption.
Qed.

End ScanFacts.

Section DiscoverFacts.

Variable cfg : Config.
Variable oracle : Oracle.

(** With a zero repeat count the first measurement raises, so the loop only
    gets through an empty charset. *)
Lemma scan_zero (known : string) (cs : list ascii) (cands0 : list (string * Q))
      (w : World) :
  attempts_per_char cfg = O ->
  scan cfg oracle known cs cands0 w =
  match cs with
  | [] => (Ok (None, cands0), w)
  | _ :: _ => (Raise ZeroDivisionError, w)
  end.
Proof.
  intros Hz. destruct cs as [|c cs]; [reflexivity|].
  cbn [scan]. unfold bind at 1.
  now rewrite avg_response_time_zero.
Qed.

(** Whenever the charset loop returns, it has done what [scan_run] says. *)
Lemma discoverNextCharacter_inv (known : string) (w w' : World)
      (found : option ascii) (candidates : list (string * Q)) :
  discoverNextCharacter cfg oracle known w = (Ok (found, candidates), w') ->
  exists tried rest : list ascii,
    (chars cfg) = tried ++ rest /\
    map fst candidates = map (add_char known) tried /\
    Forall2 (Measured cfg) candidates (served cfg oracle known tried (network w)) /\
    network w' = network w ++ concat (served cfg oracle known tried (network w)) /\
    stdout w' = stdout w ++ map trying candidates ++ announcement known found /\
    match found with
    | Some c =>
        exists before slow a,
          tried = before ++ [c] /\
          candidates = slow ++ [(add_char known c, a)] /\
          Forall (fun x => snd x <= threshold cfg) slow /\
          threshold cfg < a
    | None => rest = [] /\ Forall (fun x => snd x <= threshold cfg) candidates
    end.
Proof.
  unfold discoverNextCharacter. intros Hrun.
  destruct (Nat.eq_dec (attempts_per_char cfg) O) as [Hz|Hn].
  - rewrite (scan_zero known (chars cfg) [] w Hz) in Hrun.
    destruct (chars cfg) as [|c cs] eqn:Ec; [|discriminate].
    injection Hrun as <- <- <-. exists [], [].
    cbn [served concat map announcement app]. rewrite !app_nil_r.
    repeat split; constructor.
  - destruct (scan_run cfg oracle Hn known (chars cfg) [] w)
      as (found' & new & w1 & tried & rest & Hscan & Hrest).
    rewrite Hscan in Hrun. cbn [app] in Hrun.
    injection Hrun as <- <- <-.
    exists tried, rest. exact Hrest.
Qed.

(** With a positive repeat count the charset loop always returns. *)
Lemma discoverNextCharacter_returns (known : string) (w : World) :
  attempts_per_char cfg <> O ->
  exists found candidates w',
    discoverNextCharacter cfg oracle known w = (Ok (found, candidates), w').
Proof.
  intros Hn.
  destruct (scan_run cfg oracle Hn known (chars cfg) [] w)
    as (found & new & w1 & tried & rest & Hscan & _).
  exists found, new, w1. exact Hscan.
Qed.

End DiscoverFacts.

(** ** The stall report *)

Lemma insert_desc_perm (x : string * Q) (l : list (string * Q)) :
  Permutation (x :: l) (insert_desc x l).
Proof.
  induction l as [|y l IH]; cbn [insert_desc].
  - apply Permutation_refl.
  - destruct (Qle_bool (snd y) (snd x)).
    + apply Permutation_refl.
    + eapply perm_trans; [apply perm_swap|]. now apply perm_skip.
Qed.

Lemma sort_desc_perm (l : list (string * Q)) : Permutation l (sort_desc l).
Proof.
  induction l as [|x l IH]; cbn [sort_desc].
  - apply perm_nil.
  - eapply perm_trans; [apply perm_skip, IH | apply insert_desc_perm].
Qed.

Lemma insert_desc_sorted (x : string * Q) (l : list (string * Q)) :
  StronglySorted slower_first l -> StronglySorted slower_first (insert_desc x l).
Proof.
  induction 1 as [|y l Hl IH Hy]; cbn [insert_desc].
  - repeat constructor.
  - destruct (Qle_bool (snd y) (snd x)) eqn:E.
    + apply Qle_bool_iff in E.
      constructor; [constructor; assumption|].
      constructor; [exact E|].
      eapply Forall_impl; [|exact Hy].
      intros z Hz. unfold slower_first in *. now apply Qle_trans with (snd y).
    + constructor; [exact IH|].
      apply (Permutation_Forall (insert_desc_perm x l)).
      constructor; [|exact Hy].
      unfold slower_first. apply Qlt_le_weak, Qgtb_lt.
      unfold Qgtb. now rewrite E.
Qed.

Lemma sort_desc_sorted (l : list (string * Q)) :
  StronglySorted slower_first (sort_desc l).
Proof.
  induction l as [|x l IH]; cbn [sort_desc].
  - constructor.
  - now apply insert_desc_sorted.
Qed.

Lemma sorted_app_inv (l1 l2 : list (string * Q)) :
  StronglySorted slower_first (l1 ++ l2) ->
  StronglySorted slower_first l1 /\
  forall x y, In x l1 -> In y l2 -> slower_first x y.
Proof.
  induction l1 as [|z l1 IH]; cbn [app]; intros H.
  - split; [constructor | intros x y []].
  - apply StronglySorted_inv in H. destruct H as [Hs Hz].
    destruct (IH Hs) as [Hs1 Hcross]. split.
    + constructor; [exact Hs1|].
      apply Forall_app in Hz. tauto.
    + intros x y [<-|Hx] Hy.
      * apply Forall_app in Hz. destruct Hz as [_ Hz2].
        rewrite Forall_forall in Hz2. now apply Hz2.
      * now apply Hcross.
Qed.

(** Equal latencies keep their order, as under Python's stable sort. *)
Example sort_desc_stable :
  sort_desc [("a", 1); ("b", 2); ("c", 1); ("d", 2)]
  = [("b", 2); ("d", 2); ("a", 1); ("c", 1)].
Proof. reflexivity. Qed.

(** The five lines of the report are the five slowest candidates, slowest
    first. *)
Lemma top5_slowest (candidates : list (string * Q)) :
  let top := firstn 5 (sort_desc candidates) in
  let others := skipn 5 (sort_desc candidates) in
  Permutation candidates (top ++ others) /\
  StronglySorted slower_first top /\
  (forall x y, In x top -> In y others -> snd y <= snd x) /\
  length top = Nat.min 5 (length candidates).
Proof.
  cbv zeta. repeat split.
  - rewrite firstn_skipn. apply sort_desc_perm.
  - apply (sorted_app_inv _ (skipn 5 (sort_desc candidates))).
    rewrite firstn_skipn. apply sort_desc_sorted.
  - apply (sorted_app_inv (firstn 5 (sort_desc candidates))).
    rewrite firstn_skipn. apply sort_desc_sorted.
  - rewrite length_firstn.
    now rewrite <- (Permutation_length (sort_desc_perm candidates)).
Qed.

(** ** The [while True] loop *)

Lemma print_each_run (ls : list Line) (w : World) :
  print_each ls w =
  (Ok tt, {| now := now w; network := network w; stdout := stdout w ++ ls |}).
Proof.
  revert w; induction ls as [|l ls IH]; intros w; cbn [print_each].
  - unfold ret. rewrite app_nil_r. now destruct w.
  - unfold bind, print at 1. rewrite IH. cbn [now network stdout].
    now rewrite <- app_assoc.
Qed.

Section LoopFacts.

Variable cfg : Config.
Variable oracle : Oracle.

Lemma report_run (candidates : list (string * Q)) (w : World) :
  report candidates w =
  (Ok tt, {| now := now w; network := network w;
             stdout := stdout w ++ report_lines candidates |}).
Proof.
  unfold report, bind. unfold print at 1. rewrite print_each_run.
  unfold print. cbn [now network stdout]. unfold report_lines, slowest.
  now rewrite <- !app_assoc.
Qed.

(** One pass of the loop body, read off the outcome of the charset loop. *)
Lemma iteration_run (known : string) (w w1 : World)
      (found : option ascii) (candidates : list (string * Q)) :
  discoverNextCharacter cfg oracle known w = (Ok (found, candidates), w1) ->
  iteration cfg oracle known w =
  match found with
  | Some c => (Ok (Extending (add_char known c)), w1)
  | None => (Ok (Stalled known),
             {| now := now w1; network := network w1;
                stdout := stdout w1 ++ report_lines candidates |})
  end.
Proof.
  intros H. unfold iteration, bind at 1. rewrite H. cbn [fst snd].
  destruct found as [c|]; [reflexivity|].
  unfold bind. now rewrite report_run.
Qed.

Lemma iteration_inv (known : string) (w w' : World) (s : State) :
  iteration cfg oracle known w = (Ok s, w') ->
  exists found candidates w1,
    discoverNextCharacter cfg oracle known w = (Ok (found, candidates), w1) /\
    match found with
    | Some c => s = Extending (add_char known c) /\ w' = w1
    | None => s = Stalled known /\
              w' = {| now := now w1; network := network w1;
                      stdout := stdout w1 ++ report_lines candidates |}
    end.
Proof.
  intros H.
  destruct (discoverNextCharacter cfg oracle known w) as [[[found cands]|e] w1] eqn:E.
  - exists found, cands, w1. split; [reflexivity|].
    rewrite (iteration_run known w w1 found cands E) in H.
    destruct found; injection H as <- <-; now split.
  - unfold iteration, bind at 1 in H. rewrite E in H. discriminate.
Qed.

(** An [Extending] pass appends one character of the charset. *)
Lemma iteration_extends (known known' : string) (w w' : World) :
  iteration cfg oracle known w = (Ok (Extending known'), w') ->
  exists c, In c (chars cfg) /\
            known' = add_char known c.
Proof.
  intros H. apply iteration_inv in H.
  destruct H as (found & cands & w1 & Hd & Hs).
  apply discoverNextCharacter_inv in Hd.
  destruct Hd as (tried & rest & Hcs & _ & _ & _ & _ & Hf).
  destruct found as [c|]; [|destruct Hs; discriminate].
  destruct Hs as [Hs _]. injection Hs as ->.
  destruct Hf as (before & slow & a & -> & _).
  exists c. split; [|reflexivity].
  rewrite Hcs. apply in_or_app. left. apply in_or_app. right. now left.
Qed.

(** A [Stalled] pass hands back the prefix it was given. *)
Lemma iteration_stalls (known known' : string) (w w' : World) :
  iteration cfg oracle known w = (Ok (Stalled known'), w') ->
  known' = known.
Proof.
  intros H. apply iteration_inv in H.
  destruct H as (found & cands & w1 & _ & Hs).
  destruct found as [c|]; destruct Hs as [Hs _]; [discriminate|].
  now injection Hs.
Qed.

End LoopFacts.

Lemma append_assoc (s1 s2 s3 : string) :
  ((s1 ++ s2) ++ s3 = s1 ++ (s2 ++ s3))%string.
Proof.
  induction s1 as [|c s1 IH]; cbn [append]; [reflexivity | now rewrite IH].
Qed.

Lemma append_nil_r (s : string) : (s ++ "" = s)%string.
Proof.
  induction s as [|c s IH]; cbn [append]; [reflexivity | now rewrite IH].
Qed.

Lemma prefix_append (s t : string) : prefix s (s ++ t) = true.
Proof.
  induction s as [|c s IH]; cbn [append prefix].
  - now destruct t.
  - destruct (ascii_dec c c); [exact IH | congruence].
Qed.

Lemma length_append (s t : string) :
  String.length (s ++ t) = (String.length s + String.length t)%nat.
Proof.
  induction s as [|c s IH]; cbn [append String.length plus];
    [reflexivity | now rewrite IH].
Qed.

Section RunFacts.

Variable cfg : Config.
Variable oracle : Oracle.

Lemma loop_extend (fuel : nat) (k k' : string) (w w' : World) :
  iteration cfg oracle k w = (Ok (Extending k'), w') ->
  loop cfg oracle (S fuel) k w = loop cfg oracle fuel k' w'.
Proof.
  intros H. cbn [loop]. unfold bind at 1. now rewrite H.
Qed.

Lemma loop_stall (fuel : nat) (k k' : string) (w w' : World) :
  iteration cfg oracle k w = (Ok (Stalled k'), w') ->
  loop cfg oracle (S fuel) k w = (Ok (Some k'), w').
Proof.
  intros H. cbn [loop]. unfold bind at 1. now rewrite H.
Qed.

(** A loop that returns went through [Extending] passes and one last,
    stalled pass. *)
Lemma loop_inv (fuel : nat) :
  forall (k secret : string) (w w' : World),
  loop cfg oracle fuel k w = (Ok (Some secret), w') ->
  exists w1,
    Reaches cfg oracle k w secret w1 /\
    iteration cfg oracle secret w1 = (Ok (Stalled secret), w').
Proof.
  induction fuel as [|fuel IH]; intros k secret w w' H.
  - discriminate.
  - destruct (iteration cfg oracle k w) as [[[k1|k1]|e] w1] eqn:E.
    + rewrite (loop_extend fuel k k1 w w1 E) in H.
      destruct (IH _ _ _ _ H) as (w2 & Hr & Hs).
      exists w2. split; [|exact Hs].
      econstructor; eassumption.
    + rewrite (loop_stall fuel k k1 w w1 E) in H.
      injection H as <- <-.
      pose proof (iteration_stalls cfg oracle k k1 w w1 E) as ->.
      exists w. split; [constructor | exact E].
    + cbn [loop] in H. unfold bind at 1 in H. rewrite E in H. discriminate.
Qed.

(** Conversely, a chain of [Extending] passes that ends in a stall is what
    the loop does, given fuel for every pass. *)
Lemma loop_reaches (k secret : string) (w w1 w' : World) :
  Reaches cfg oracle k w secret w1 ->
  iteration cfg oracle secret w1 = (Ok (Stalled secret), w') ->
  exists fuel0, forall fuel, (fuel0 <= fuel)%nat ->
    loop cfg oracle fuel k w = (Ok (Some secret), w').
Proof.
  induction 1 as [k w | k w k1 w1 k2 w2 Hstep Hreach IH]; intros Hs.
  - exists 1%nat. intros [|fuel] Hf; [lia|]. now apply loop_stall.
  - destruct (IH Hs) as (fuel0 & Hfuel).
    exists (S fuel0). intros [|fuel] Hf; [lia|].
    rewrite (loop_extend fuel k k1 w w1 Hstep). apply Hfuel. lia.
Qed.

(** The known prefix only grows, by characters of the charset. *)
Lemma Reaches_grows (k k' : string) (w w' : World) :
  Reaches cfg oracle k w k' w' ->
  exists suffix : list ascii,
    k' = (k ++ string_of_list_ascii suffix)%string /\
    Forall (fun c => In c (chars cfg)) suffix.
Proof.
  induction 1 as [k w | k w k1 w1 k2 w2 Hstep Hreach IH].
  - exists []. cbn [string_of_list_ascii]. now rewrite append_nil_r.
  - destruct IH as (suffix & -> & Hall).
    destruct (iteration_extends cfg oracle k k1 w w1 Hstep) as (c & Hc & ->).
    exists (c :: suffix). split; [|constructor; assumption].
    unfold add_char. now rewrite append_assoc.
Qed.

(** With a positive repeat count nothing in the loop raises. *)
Lemma loop_returns (fuel : nat) :
  attempts_per_char cfg <> O ->
  forall (k : string) (w : World),
  exists r w', loop cfg oracle fuel k w = (Ok r, w').
Proof.
  intros Hn. induction fuel as [|fuel IH]; intros k w.
  - exists None, w. reflexivity.
  - destruct (discoverNextCharacter_returns cfg oracle k w Hn)
      as (found & cands & w1 & Hd).
    pose proof (iteration_run cfg oracle k w w1 found cands Hd) as Hit.
    destruct found as [c|].
    + rewrite (loop_extend fuel _ _ _ _ Hit). apply IH.
    + rewrite (loop_stall fuel _ _ _ _ Hit). eauto.
Qed.

Lemma run_inv (fuel : nat) (w w' : World) (secret : string) :
  run cfg oracle fuel w = (Ok (Some secret), w') ->
  exists w1,
    loop cfg oracle fuel (known cfg) w = (Ok (Some secret), w1) /\
    w' = {| now := now w1; network := network w1;
            stdout := stdout w1 ++ [SecretDiscovered secret] |}.
Proof.
  unfold run, bind at 1. intros H.
  destruct (loop cfg oracle fuel (known cfg) w) as [[[s|]|e] w1]; try discriminate.
  unfold bind, print, ret in H. injection H as <- <-. now exists w1.
Qed.

Lemma run_of_loop (fuel : nat) (w w1 : World) (secret : string) :
  loop cfg oracle fuel (known cfg) w = (Ok (Some secret), w1) ->
  run cfg oracle fuel w =
  (Ok (Some secret),
   {| now := now w1; network := network w1;
      stdout := stdout w1 ++ [SecretDiscovered secret] |}).
Proof.
  intros H. unfold run, bind at 1. now rewrite H.
Qed.

End RunFacts.

(** ** Stateless networks *)

Section MockFacts.

Variable cfg : Config.
Variable latency : string -> Q.
Hypothesis Hn : attempts_per_char cfg <> O.

Lemma mock_sum (payload : string) (m : nat) (h : list Request) :
  Qsum (map took (trials cfg (mock latency) payload m h))
  == inject_Z (Z.of_nat m) * latency payload.
Proof.
  revert h; induction m as [|m IH]; intros h.
  - cbn [trials map Qsum]. change (inject_Z (Z.of_nat 0)) with 0. ring.
  - cbn [trials map Qsum]. rewrite IH.
    change (took (exchange (mock latency) h (url cfg) payload 3))
      with (latency payload).
    rewrite Nat2Z.inj_succ, <- Z.add_1_r, inject_Z_plus.
    change (inject_Z 1) with 1. ring.
Qed.

Lemma mock_mean (payload : string) (h : list Request) :
  mean_took (attempts_per_char cfg)
            (trials cfg (mock latency) payload (attempts_per_char cfg) h)
  == latency payload.
Proof.
  unfold mean_took. rewrite mock_sum. field.
  change 0 with (inject_Z 0). rewrite inject_Z_injective. lia.
Qed.

Lemma mock_measured (known : string) (tried : list ascii) :
  forall (cands : list (string * Q)) (h : list Request),
  map fst cands = map (add_char known) tried ->
  Forall2 (Measured cfg) cands (served cfg (mock latency) known tried h) ->
  Forall (fun x => snd x == latency (fst x)) cands.
Proof.
  induction tried as [|c tried IH]; intros cands h Hfst Hm;
    cbn [served] in Hm; inversion Hm as [|x g cands' gs Hx Hrest]; subst.
  - constructor.
  - cbn [map] in Hfst. injection Hfst as Hc Hfst.
    constructor; [|now apply (IH _ _ Hfst Hrest)].
    destruct Hx as (_ & _ & Hx). rewrite Hx, Hc. apply mock_mean.
Qed.

(** Over a stateless network the charset loop is [first_above]. *)
Lemma mock_discover (known : string) (w w' : World)
      (found : option ascii) (cands : list (string * Q)) :
  discoverNextCharacter cfg (mock latency) known w = (Ok (found, cands), w') ->
  found = first_above cfg latency known.
Proof.
  intros H. apply discoverNextCharacter_inv in H.
  destruct H as (tried & rest & Hcs & Hfst & Hm & _ & _ & Hf).
  pose proof (mock_measured known tried cands (network w) Hfst Hm) as Hlat.
  unfold first_above. rewrite Hcs. clear Hcs Hm.
  destruct found as [c|].
  - destruct Hf as (before & slow & a & -> & -> & Hslow & Ha).
    rewrite !map_app in Hfst. apply app_inj_tail in Hfst.
    destruct Hfst as [Hfst _].
    apply Forall_app in Hlat. destruct Hlat as [Hlat Hc].
    inversion Hc as [|? ? Hca _]; subst. cbn [fst snd] in Hca.
    rewrite <- app_assoc. cbn [app].
    revert slow Hfst Hslow Hlat.
    induction before as [|b before IH]; intros slow Hfst Hslow Hlat.
    + cbn [app find].
      replace (Qgtb (latency (add_char known c)) (threshold cfg)) with true;
        [reflexivity|].
      symmetry. apply Qgtb_lt. now rewrite <- Hca.
    + destruct slow as [|x slow]; [discriminate|].
      cbn [map] in Hfst. injection Hfst as Hx Hfst.
      inversion Hslow; subst. inversion Hlat as [|? ? Hxa Hlat']; subst.
      cbn [app find].
      replace (Qgtb (latency (add_char known b)) (threshold cfg)) with false;
        [now apply (IH slow)|].
      symmetry. apply Qgtb_le. rewrite <- Hx, <- Hxa. assumption.
  - destruct Hf as [-> Hall]. rewrite app_nil_r.
    revert cands Hfst Hall Hlat.
    induction tried as [|b tried IH]; intros cands Hfst Hall Hlat.
    + reflexivity.
    + destruct cands as [|x cands]; [discriminate|].
      cbn [map] in Hfst. injection Hfst as Hx Hfst.
      inversion Hall; subst. inversion Hlat as [|? ? Hxa Hlat']; subst.
      cbn [find].
      replace (Qgtb (latency (add_char known b)) (threshold cfg)) with false;
        [now apply (IH cands)|].
      symmetry. apply Qgtb_le. rewrite <- Hx, <- Hxa. assumption.
Qed.

(** ... and the whole loop is [reconstruct], from any world. *)
Lemma mock_loop (fuel : nat) :
  forall (k : string) (w : World),
  exists w', loop cfg (mock latency) fuel k w
             = (Ok (reconstruct cfg latency fuel k), w').
Proof.
  induction fuel as [|fuel IH]; intros k w.
  - exists w. reflexivity.
  - destruct (discoverNextCharacter_returns cfg (mock latency) k w Hn)
      as (found & cands & w1 & Hd).
    pose proof (iteration_run cfg (mock latency) k w w1 found cands Hd) as Hit.
    apply mock_discover in Hd. cbn [reconstruct]. rewrite <- Hd.
    destruct found as [c|].
    + rewrite (loop_extend _ _ fuel _ _ _ _ Hit). apply IH.
    + rewrite (loop_stall _ _ fuel _ _ _ _ Hit). eauto.
Qed.

Lemma mock_run (fuel : nat) (w : World) :
  fst (run cfg (mock latency) fuel w)
  = Ok (reconstruct cfg latency fuel (known cfg)).
Proof.
  unfold run, bind at 1.
  destruct (mock_loop fuel (known cfg) w) as (w' & ->).
  now destruct (reconstruct cfg latency fuel (known cfg)).
Qed.

End MockFacts.

Lemma prefix_add_char_next (k : string) (c' c : ascii) (r : string) :
  prefix (add_char k c') (k ++ String c r) = true <-> c' = c.
Proof.
  unfold add_char. induction k as [|a k IH]; cbn [append prefix].
  - destruct (ascii_dec c' c) as [->|Hne].
    + split; [reflexivity | now destruct r].
    + split; [discriminate | contradiction].
  - destruct (ascii_dec a a); [exact IH | congruence].
Qed.

Lemma prefix_add_char_self (t : string) (c : ascii) :
  prefix (add_char t c) t = false.
Proof.
  unfold add_char. induction t as [|a t IH]; cbn [append prefix].
  - reflexivity.
  - destruct (ascii_dec a a); [exact IH | congruence].
Qed.

Section Reconstruction.

Variable cfg : Config.
Variable latency : string -> Q.
Variable target : string.

(** The latency is above the threshold exactly on the prefixes of the
    target. *)
Hypothesis Hexact :
  forall p, threshold cfg < latency p <-> prefix p target = true.

Lemma reconstruct_target (rest : list ascii) :
  forall (k : string) (fuel : nat),
  (k ++ string_of_list_ascii rest)%string = target ->
  Forall (fun c => In c (chars cfg)) rest ->
  (length rest < fuel)%nat ->
  reconstruct cfg latency fuel k = Some target.
Proof.
  induction rest as [|c rest IH]; intros k fuel Hk Hin Hfuel;
    (destruct fuel as [|fuel]; [cbn [length] in Hfuel; lia|]);
    cbn [reconstruct]; unfold first_above.
  - cbn [string_of_list_ascii] in Hk. rewrite append_nil_r in Hk. subst k.
    destruct (find _ (chars cfg)) as [c'|] eqn:E; [|reflexivity].
    apply find_some in E. destruct E as [_ E].
    apply Qgtb_lt, Hexact in E.
    now rewrite prefix_add_char_self in E.
  - cbn [string_of_list_ascii] in Hk. inversion Hin as [|? ? Hc Hrest]; subst.
    destruct (find _ (chars cfg)) as [c'|] eqn:E.
    + apply find_some in E. destruct E as [_ E].
      apply Qgtb_lt, Hexact in E. apply prefix_add_char_next in E. subst c'.
      apply IH; [|assumption|cbn [length] in Hfuel; lia].
      unfold add_char. now rewrite append_assoc.
    + apply (find_none _ _ E) in Hc.
      apply Qgtb_le in Hc. exfalso.
      apply (Qlt_not_le _ _ (proj2 (Hexact (add_char k c))
                                   (proj2 (prefix_add_char_next k c c _) eq_refl))).
      exact Hc.
Qed.

End Reconstruction.

(** ** Bounds on a mean *)

Lemma Qsum_bounds (lo hi : Q) (l : list Q) :
  Forall (fun x => lo <= x /\ x <= hi) l ->
  inject_Z (Z.of_nat (length l)) * lo <= Qsum l /\
  Qsum l <= inject_Z (Z.of_nat (length l)) * hi.
Proof.
  induction 1 as [|x l [Hlo Hhi] Hl [IHlo IHhi]].
  - cbn [length Qsum]. change (inject_Z (Z.of_nat 0)) with 0.
    split; ring_simplify; apply Qle_refl.
  - cbn [length Qsum].
    rewrite Nat2Z.inj_succ, <- Z.add_1_r, inject_Z_plus.
    change (inject_Z 1) with 1. split.
    + setoid_replace ((inject_Z (Z.of_nat (length l)) + 1) * lo)
        with (lo + inject_Z (Z.of_nat (length l)) * lo) by ring.
      now apply Qplus_le_compat.
    + setoid_replace ((inject_Z (Z.of_nat (length l)) + 1) * hi)
        with (hi + inject_Z (Z.of_nat (length l)) * hi) by ring.
      now apply Qplus_le_compat.
Qed.

Lemma Qsum_upper (hi : Q) (l : list Q) :
  Forall (fun x => x <= hi) l ->
  Qsum l <= inject_Z (Z.of_nat (length l)) * hi.
Proof.
  induction 1 as [|x l Hx Hl IH]; cbn [length Qsum].
  - change (inject_Z (Z.of_nat 0)) with 0. ring_simplify. apply Qle_refl.
  - rewrite Nat2Z.inj_succ, <- Z.add_1_r, inject_Z_plus.
    change (inject_Z 1) with 1.
    setoid_replace ((inject_Z (Z.of_nat (length l)) + 1) * hi)
      with (hi + inject_Z (Z.of_nat (length l)) * hi) by ring.
    now apply Qplus_le_compat.
Qed.

Lemma Qsum_lower (lo : Q) (l : list Q) :
  Forall (fun x => lo <= x) l ->
  inject_Z (Z.of_nat (length l)) * lo <= Qsum l.
Proof.
  induction 1 as [|x l Hx Hl IH]; cbn [length Qsum].
  - change (inject_Z (Z.of_nat 0)) with 0. ring_simplify. apply Qle_refl.
  - rewrite Nat2Z.inj_succ, <- Z.add_1_r, inject_Z_plus.
    change (inject_Z 1) with 1.
    setoid_replace ((inject_Z (Z.of_nat (length l)) + 1) * lo)
      with (lo + inject_Z (Z.of_nat (length l)) * lo) by ring.
    now apply Qplus_le_compat.
Qed.

Lemma Qsum_const (v : Q) (l : list Q) :
  Forall (fun x => x == v) l ->
  Qsum l == inject_Z (Z.of_nat (length l)) * v.
Proof.
  induction 1 as [|x l Hx Hl IH].
  - cbn [length Qsum]. change (inject_Z (Z.of_nat 0)) with 0. ring.
  - cbn [length Qsum].
    rewrite Nat2Z.inj_succ, <- Z.add_1_r, inject_Z_plus, IH, Hx.
    change (inject_Z 1) with 1. ring.
Qed.

Lemma inject_nat_pos (n : nat) : n <> O -> 0 < inject_Z (Z.of_nat n).
Proof.
  intros Hn. change 0 with (inject_Z 0). rewrite <- Zlt_Qlt. lia.
Qed.

Lemma mean_bounds (lo hi : Q) (n : nat) (l : list Q) :
  n <> O -> length l = n ->
  Forall (fun x => lo <= x /\ x <= hi) l ->
  lo <= Qsum l / inject_Z (Z.of_nat n) /\ Qsum l / inject_Z (Z.of_nat n) <= hi.
Proof.
  intros Hn Hlen Hall. pose proof (inject_nat_pos n Hn) as Hpos.
  destruct (Qsum_bounds lo hi l Hall) as [Hlo Hhi]. rewrite Hlen in Hlo, Hhi.
  split.
  - apply Qle_shift_div_l; [exact Hpos|]. now rewrite Qmult_comm.
  - apply Qle_shift_div_r; [exact Hpos|]. now rewrite Qmult_comm.
Qed.

Lemma mean_const (v : Q) (n : nat) (l : list Q) :
  n <> O -> length l = n ->
  Forall (fun x => x == v) l ->
  Qsum l / inject_Z (Z.of_nat n) == v.
Proof.
  intros Hn Hlen Hall. pose proof (inject_nat_pos n Hn) as Hpos.
  rewrite (Qsum_const v l Hall), Hlen. field.
  intros H. rewrite H in Hpos. now apply (Qlt_irrefl 0).
Qed.

Lemma trials_timeout (cfg : Config) (oracle : Oracle) (payload : string)
      (n : nat) (h : list Request) :
  Forall (fun r => timeout r = 3) (trials cfg oracle payload n h).
Proof.
  revert h; induction n as [|n IH]; intros h; cbn [trials].
  - constructor.
  - constructor; [reflexivity | apply IH].
Qed.

(** * The claims *)

(** ** Measuring one candidate *)

(** One trial adds to [total] what the wall clock moved across its single
    request, whether the request failed or not. *)
Lemma trial_elapsed (cfg : Config) (oracle : Oracle) (payload : string)
      (total : Q) (w : World) :
  exists t w',
    trial cfg oracle payload total w = (Ok t, w') /\
    network w' = network w ++ [exchange oracle (network w) (url cfg) payload 3] /\
    t == total + (now w' - now w) /\
    now w' - now w == took (exchange oracle (network w) (url cfg) payload 3).
Proof.
  eexists. eexists. split; [apply trial_run|].
  cbn [now network]. split; [reflexivity|]. split; [reflexivity | ring].
Qed.

(** C5. [avg_response_time] sends exactly [attempts_per_char] requests, all
    for the payload (none is repeated, failed or not), and returns the sum
    of the elapsed times of these trials divided by the repeat count; the
    script's repeat count is 7. *)
Theorem avg_response_time_is_mean_of_fixed_count
        (cfg : Config) (oracle : Oracle) (payload : string) (w : World) :
  attempts_per_char cfg <> O ->
  let reqs := trials cfg oracle payload (attempts_per_char cfg) (network w) in
  exists a w',
    avg_response_time cfg oracle payload w = (Ok a, w') /\
    network w' = network w ++ reqs /\
    length reqs = attempts_per_char cfg /\
    Forall (fun r => target r = url cfg /\ query r = payload) reqs /\
    a == Qsum (map took reqs) / inject_Z (Z.of_nat (attempts_per_char cfg)) /\
    attempts_per_char tic = 7%nat.
Proof.
  intros Hn reqs.
  destruct (avg_response_time_run cfg oracle payload w Hn)
    as (a & w' & Hrun & Hnet & _ & Ha).
  exists a, w'. repeat split.
  - exact Hrun.
  - exact Hnet.
  - apply trials_length.
  - apply trials_query.
  - exact Ha.
Qed.

Lemma avg_response_time_is_mean_of_fixed_count_witness :
  attempts_per_char tic <> O /\
  exists a w',
    avg_response_time tic refused_once "Ca" fresh = (Ok a, w') /\
    length (network w') = 7%nat /\
    a == 61 # 700.
Proof.
  split; [discriminate|].
  destruct (avg_response_time_is_mean_of_fixed_count tic refused_once "Ca" fresh)
    as (a & w' & Hrun & Hnet & Hlen & _ & Ha & _); [discriminate|].
  exists a, w'. repeat split.
  - exact Hrun.
  - rewrite Hnet. reflexivity.
  - rewrite Ha. vm_compute. reflexivity.
Defined.

(** C3, as the code has it.  [avg_response_time] returns a number, not an
    error, also when every trial fails, and the number is the mean of what
    the trials took, failed or not.  It is at least 0 when no trial's
    elapsed time is negative, at most the timeout of 3 seconds when no trial
    took longer than its timeout, and the timeout itself when every trial
    took exactly that long: the code neither caps an elapsed time nor
    replaces the time of a failed trial. *)
Theorem avg_response_time_within_trial_bounds
        (cfg : Config) (oracle : Oracle) (payload : string) (w : World) :
  attempts_per_char cfg <> O ->
  let reqs := trials cfg oracle payload (attempts_per_char cfg) (network w) in
  exists a w',
    avg_response_time cfg oracle payload w = (Ok a, w') /\
    a == mean_took (attempts_per_char cfg) reqs /\
    (Forall (fun r => 0 <= took r) reqs -> 0 <= a) /\
    (Forall (fun r => took r <= timeout r) reqs -> a <= 3) /\
    (Forall (fun r => took r == timeout r) reqs -> a == 3).
Proof.
  intros Hn reqs.
  destruct (avg_response_time_run cfg oracle payload w Hn)
    as (a & w' & Hrun & _ & _ & Ha).
  fold reqs in Ha. exists a, w'.
  assert (Hlen : length (map took reqs) = attempts_per_char cfg).
  { rewrite length_map. apply trials_length. }
  pose proof (inject_nat_pos _ Hn) as Hpos.
  pose proof (trials_timeout cfg oracle payload (attempts_per_char cfg)
                             (network w)) as Ht.
  fold reqs in Ht. rewrite Forall_forall in Ht.
  split; [exact Hrun|]. split; [exact Ha|].
  unfold mean_took in Ha. split; [|split].
  - intros Hall. rewrite Ha.
    apply Qle_shift_div_l; [exact Hpos|]. rewrite Qmult_comm, <- Hlen.
    apply Qsum_lower. now apply Forall_map.
  - intros Hall. rewrite Ha.
    apply Qle_shift_div_r; [exact Hpos|]. rewrite Qmult_comm, <- Hlen.
    apply Qsum_upper. apply Forall_map. rewrite Forall_forall in *.
    intros r Hr. specialize (Hall r Hr). now rewrite (Ht r Hr) in Hall.
  - intros Heq. rewrite Ha. apply mean_const; try assumption.
    apply Forall_map. rewrite Forall_forall in *.
    intros r Hr. rewrite (Heq r Hr). now rewrite (Ht r Hr).
Qed.

Lemma avg_response_time_within_trial_bounds_witness :
  attempts_per_char tic <> O /\
  Forall (fun r => 0 <= took r)
         (trials tic refused "Ca" (attempts_per_char tic) (network fresh)) /\
  Forall (fun r => took r <= timeout r)
         (trials tic refused "Ca" (attempts_per_char tic) (network fresh)) /\
  exists a w',
    avg_response_time tic refused "Ca" fresh = (Ok a, w') /\ 0 <= a /\ a <= 3.
Proof.
  assert (Hlo : Forall (fun r => 0 <= took r)
           (trials tic refused "Ca" (attempts_per_char tic) (network fresh))).
  { repeat constructor; vm_compute; discriminate. }
  assert (Hhi : Forall (fun r => took r <= timeout r)
           (trials tic refused "Ca" (attempts_per_char tic) (network fresh))).
  { repeat constructor; vm_compute; discriminate. }
  split; [discriminate|]. split; [exact Hlo|]. split; [exact Hhi|].
  destruct (avg_response_time_within_trial_bounds tic refused "Ca" fresh)
    as (a & w' & Hrun & _ & Hge & Hle & _); [discriminate|].
  exists a, w'. split; [exact Hrun|]. split; [exact (Hge Hlo) | exact (Hle Hhi)].
Defined.

(** C3 fails as stated, in each of its parts.  When every one of the seven
    trials fails at once (connection refused after 10 ms) the value is
    10 ms, not the timeout of 3 s.  When every answer trickles in for 5 s
    the value is 5 s, above the timeout.  When the wall clock is set back
    by a second during every request the value is -1 s, below 0. *)
Lemma avg_response_time_outside_claimed_bounds :
  (exists a w',
      avg_response_time tic refused "Ca" fresh = (Ok a, w') /\
      length (network w') = 7%nat /\
      Forall (fun r => failed r = true) (network w') /\
      a == 1 # 100 /\ ~ a == 3) /\
  (exists a w',
      avg_response_time tic trickling "Ca" fresh = (Ok a, w') /\
      Forall (fun r => failed r = false /\ took r == 5) (network w') /\
      a == 5 /\ ~ a <= 3) /\
  (exists a w',
      avg_response_time tic clock_set_back "Ca" fresh = (Ok a, w') /\
      Forall (fun r => took r == -1) (network w') /\
      a == -1 /\ ~ 0 <= a).
Proof.
  split; [|split].
  - eexists. eexists. split; [vm_compute; reflexivity|].
    split; [reflexivity|]. split; [repeat constructor|].
    split; [vm_compute; reflexivity | vm_compute; discriminate].
  - eexists. eexists. split; [vm_compute; reflexivity|].
    split; [repeat constructor|].
    split; [vm_compute; reflexivity | vm_compute; intros H; now apply H].
  - eexists. eexists. split; [vm_compute; reflexivity|].
    split; [repeat constructor|].
    split; [vm_compute; reflexivity | vm_compute; intros H; now apply H].
Qed.

(** ** One position *)

(** C1. The charset loop measures the characters in charset order and
    returns the first whose measured average strictly exceeds the
    threshold: every character before it was measured at or below the
    threshold, and nothing is measured after it: the candidates and the
    requests on the network are those of the characters up to the accepted
    one.  It returns nothing exactly when it went through the whole charset
    and no average exceeded the threshold. *)
Theorem discoverNextCharacter_first_above_threshold
        (cfg : Config) (oracle : Oracle) (known : string) (w : World) :
  attempts_per_char cfg <> O ->
  exists found candidates w' tried,
    discoverNextCharacter cfg oracle known w = (Ok (found, candidates), w') /\
    map fst candidates = map (add_char known) tried /\
    Forall2 (Measured cfg) candidates (served cfg oracle known tried (network w)) /\
    network w' = network w ++ concat (served cfg oracle known tried (network w)) /\
    match found with
    | Some c =>
        exists before after slow a,
          (chars cfg) = before ++ c :: after /\
          tried = before ++ [c] /\
          candidates = slow ++ [(add_char known c, a)] /\
          Forall (fun x => snd x <= threshold cfg) slow /\
          threshold cfg < a
    | None =>
        tried = (chars cfg) /\
        Forall (fun x => snd x <= threshold cfg) candidates
    end.
Proof.
  intros Hn.
  destruct (discoverNextCharacter_returns cfg oracle known w Hn)
    as (found & candidates & w' & Hrun).
  destruct (discoverNextCharacter_inv cfg oracle known w w' found candidates Hrun)
    as (tried & rest & Hcs & Hfst & Hm & Hnet & _ & Hf).
  exists found, candidates, w', tried.
  repeat (split; [assumption|]).
  destruct found as [c|].
  - destruct Hf as (before & slow & a & Ht & Hc & Hslow & Ha).
    exists before, rest, slow, a. repeat split; try assumption.
    rewrite Hcs, Ht, <- app_assoc. reflexivity.
  - destruct Hf as [-> Hall]. split; [|exact Hall].
    now rewrite Hcs, app_nil_r.
Qed.

Lemma discoverNextCharacter_first_above_threshold_witness :
  attempts_per_char tic <> O /\
  exists found candidates w',
    discoverNextCharacter tic (mock (slow_on ["Cb"])) "C" fresh
    = (Ok (found, candidates), w') /\
    (length (map fst candidates)
     <= length (chars tic))%nat.
Proof.
  split; [discriminate|].
  destruct (discoverNextCharacter_first_above_threshold
              tic (mock (slow_on ["Cb"])) "C" fresh)
    as (found & candidates & w' & tried & Hrun & Hfst & _ & _ & Hf);
    [discriminate|].
  exists found, candidates, w'. split; [exact Hrun|].
  rewrite Hfst, length_map.
  destruct found as [c|].
  - destruct Hf as (before & after & _ & _ & -> & -> & _).
    rewrite !length_app. cbn [length]. lia.
  - destruct Hf as [-> _]. lia.
Defined.

(** C10. At a stalled position [candidates] holds one pair per charset
    character, in charset order: 65 pairs for the script's charset, so the
    report has min(5, length of the charset) = 5 ranked lines.  The list
    starts empty at every position: whatever the outcome, it only holds
    payloads of the current position, one per character tried. *)
Theorem stalled_candidates_one_per_charset_character
        (cfg : Config) (oracle : Oracle) (known : string) (w w' : World)
        (found : option ascii) (candidates : list (string * Q)) :
  discoverNextCharacter cfg oracle known w = (Ok (found, candidates), w') ->
  let top := firstn 5 (sort_desc candidates) in
  discoverNextCharacter cfg oracle known = scan cfg oracle known (chars cfg) [] /\
  (exists tried rest,
      (chars cfg) = tried ++ rest /\
      map fst candidates = map (add_char known) tried) /\
  (found = None ->
     map fst candidates = map (add_char known) (chars cfg) /\
     length candidates = length (chars cfg) /\
     length top = Nat.min 5 (length (chars cfg)) /\
     (exists w'',
         iteration cfg oracle known w = (Ok (Stalled known), w'') /\
         stdout w'' = stdout w' ++ NoCharacterCrossed :: map slowest top ++ [Stopping]) /\
     (charset cfg = charset tic ->
      length candidates = 65%nat /\ length top = 5%nat)).
Proof.
  intros Hrun top. split; [reflexivity|].
  destruct (discoverNextCharacter_inv cfg oracle known w w' found candidates Hrun)
    as (tried & rest & Hcs & Hfst & _ & _ & _ & Hf).
  split; [exists tried, rest; now split|].
  intros ->. destruct Hf as [-> _]. rewrite app_nil_r in Hcs. subst tried.
  assert (Hlen : length candidates = length (chars cfg)).
  { rewrite <- (length_map fst candidates), Hfst. apply length_map. }
  assert (Htop : length top = Nat.min 5 (length (chars cfg))).
  { rewrite <- Hlen. apply top5_slowest. }
  split; [exact Hfst|]. split; [exact Hlen|]. split; [exact Htop|]. split.
  - eexists. split; [apply (iteration_run cfg oracle known w w' None candidates Hrun)|].
    reflexivity.
  - intros Hcharset. rewrite Htop, Hlen. unfold chars. rewrite Hcharset.
    split; reflexivity.
Qed.

Lemma stalled_candidates_one_per_charset_character_witness :
  exists candidates w',
    discoverNextCharacter tic spike "C" fresh = (Ok (None, candidates), w') /\
    length candidates = 65%nat /\
    length (firstn 5 (sort_desc candidates)) = 5%nat.
Proof.
  eexists. eexists.
  assert (Hrun : discoverNextCharacter tic spike "C" fresh
                 = (Ok (None, ?[cands]), ?[w1])) by (vm_compute; reflexivity).
  split; [exact Hrun|].
  apply (stalled_candidates_one_per_charset_character _ _ _ _ _ _ _ Hrun);
    reflexivity.
Defined.

(** ** Stalling *)

(** C6. When the charset loop ends without an accepted character, the pass
    prints the header, the five slowest candidates in descending order of
    their average (every candidate left out is at most as slow as each one
    listed), and the stop message; the pass ends [Stalled] and the loop
    breaks there. *)
Theorem stall_reports_top5_descending
        (cfg : Config) (oracle : Oracle) (known : string) (w w1 : World)
        (candidates : list (string * Q)) :
  discoverNextCharacter cfg oracle known w = (Ok (None, candidates), w1) ->
  let top := firstn 5 (sort_desc candidates) in
  let others := skipn 5 (sort_desc candidates) in
  exists w',
    iteration cfg oracle known w = (Ok (Stalled known), w') /\
    stdout w' = stdout w1 ++ NoCharacterCrossed :: map slowest top ++ [Stopping] /\
    Permutation candidates (top ++ others) /\
    StronglySorted (fun x y => snd y <= snd x) top /\
    (forall x y, In x top -> In y others -> snd y <= snd x) /\
    length top = Nat.min 5 (length candidates) /\
    (forall fuel, loop cfg oracle (S fuel) known w = (Ok (Some known), w')).
Proof.
  intros Hrun top others.
  pose proof (iteration_run cfg oracle known w w1 None candidates Hrun) as Hit.
  destruct (top5_slowest candidates) as (Hperm & Hsorted & Hcross & Hlen).
  eexists. split; [exact Hit|]. cbn [stdout].
  repeat split; try assumption.
  intros fuel. now apply loop_stall.
Qed.

Lemma stall_reports_top5_descending_witness :
  exists candidates w1 w',
    discoverNextCharacter tic spike "C" fresh = (Ok (None, candidates), w1) /\
    iteration tic spike "C" fresh = (Ok (Stalled "C"), w') /\
    StronglySorted (fun x y => snd y <= snd x) (firstn 5 (sort_desc candidates)).
Proof.
  eexists. eexists.
  assert (Hrun : discoverNextCharacter tic spike "C" fresh
                 = (Ok (None, ?[cands]), ?[w1])) by (vm_compute; reflexivity).
  destruct (stall_reports_top5_descending _ _ _ _ _ _ Hrun)
    as (w' & Hit & _ & _ & Hsorted & _).
  exists w'. split; [exact Hrun|]. split; assumption.
Defined.

(** C7. When the charset loop returns nothing, the pass ends [Stalled] with
    the very prefix it was given, the loop returns that prefix, and, when
    the position was reached from the seed, the script's last line reports
    that prefix. *)
Theorem stall_leaves_known_unchanged
        (cfg : Config) (oracle : Oracle) (k : string) (w w1 : World)
        (candidates : list (string * Q)) :
  discoverNextCharacter cfg oracle k w = (Ok (None, candidates), w1) ->
  exists w',
    iteration cfg oracle k w = (Ok (Stalled k), w') /\
    (forall fuel, loop cfg oracle (S fuel) k w = (Ok (Some k), w')) /\
    (forall w0,
        Reaches cfg oracle (known cfg) w0 k w ->
        exists fuel0, forall fuel, (fuel0 <= fuel)%nat ->
          run cfg oracle fuel w0 =
          (Ok (Some k),
           {| now := now w'; network := network w';
              stdout := stdout w' ++ [SecretDiscovered k] |})).
Proof.
  intros Hrun.
  pose proof (iteration_run cfg oracle k w w1 None candidates Hrun) as Hit.
  eexists. split; [exact Hit|]. split.
  - intros fuel. now apply loop_stall.
  - intros w0 Hreach.
    destruct (loop_reaches cfg oracle _ _ _ _ _ Hreach Hit) as (fuel0 & Hloop).
    exists fuel0. intros fuel Hfuel.
    now apply run_of_loop, Hloop.
Qed.

Lemma stall_leaves_known_unchanged_witness :
  exists fuel w', run tic spike fuel fresh = (Ok (Some "C"), w').
Proof.
  assert (Hrun : discoverNextCharacter tic spike "C" fresh
                 = (Ok (None, ?[cands]), ?[w1])) by (vm_compute; reflexivity).
  destruct (stall_leaves_known_unchanged _ _ _ _ _ _ Hrun)
    as (w' & _ & _ & Hfinal).
  destruct (Hfinal fresh (reaches_refl tic spike "C" fresh)) as (fuel0 & Hfuel).
  exists fuel0. eexists. apply (Hfuel fuel0). apply Nat.le_refl.
Defined.

(** ** The known prefix *)

(** C8. The run starts from the seed; an [Extending] pass appends exactly
    one character, and that character is in the charset; a [Stalled] pass
    leaves the prefix alone.  So at every configuration the run reaches,
    the known prefix is the seed followed by charset characters, and so is
    the secret it finally reports. *)
Theorem known_only_grows_from_seed (cfg : Config) (oracle : Oracle) :
  (forall fuel,
      run cfg oracle fuel =
      (r <- loop cfg oracle fuel (known cfg) ;;
       match r with
       | Some secret => print (SecretDiscovered secret) ;; ret (Some secret)
       | None => ret None
       end)) /\
  (forall k w k' w',
      iteration cfg oracle k w = (Ok (Extending k'), w') ->
      exists c, In c (chars cfg) /\ k' = add_char k c /\
                String.length k' = S (String.length k)) /\
  (forall k w k' w',
      iteration cfg oracle k w = (Ok (Stalled k'), w') -> k' = k) /\
  (forall w k w',
      Reaches cfg oracle (known cfg) w k w' ->
      exists suffix,
        k = (known cfg ++ string_of_list_ascii suffix)%string /\
        Forall (fun c => In c (chars cfg)) suffix /\
        prefix (known cfg) k = true) /\
  (forall fuel w secret w',
      run cfg oracle fuel w = (Ok (Some secret), w') ->
      exists w1 suffix,
        Reaches cfg oracle (known cfg) w secret w1 /\
        secret = (known cfg ++ string_of_list_ascii suffix)%string /\
        Forall (fun c => In c (chars cfg)) suffix).
Proof.
  split; [reflexivity|]. split; [|split; [|split]].
  - intros k w k' w' H.
    destruct (iteration_extends cfg oracle k k' w w' H) as (c & Hc & ->).
    exists c. repeat split; [exact Hc|].
    unfold add_char. rewrite length_append. cbn [String.length]. lia.
  - intros k w k' w'. apply iteration_stalls.
  - intros w k w' H.
    destruct (Reaches_grows cfg oracle _ _ _ _ H) as (suffix & -> & Hall).
    exists suffix. repeat split; [exact Hall | apply prefix_append].
  - intros fuel w secret w' H.
    destruct (run_inv cfg oracle fuel w w' secret H) as (w1 & Hloop & _).
    destruct (loop_inv cfg oracle fuel _ _ _ _ Hloop) as (w2 & Hreach & _).
    destruct (Reaches_grows cfg oracle _ _ _ _ Hreach) as (suffix & Hs & Hall).
    exists w2, suffix. repeat split; assumption.
Qed.

Lemma known_only_grows_from_seed_witness :
  exists w' suffix,
    run ab (mock (slow_on ["A"; "AB"])) 3 fresh = (Ok (Some "AB"), w') /\
    "AB" = (known ab ++ string_of_list_ascii suffix)%string /\
    Forall (fun c => In c (chars ab)) suffix.
Proof.
  eexists.
  assert (Hrun : run ab (mock (slow_on ["A"; "AB"])) 3 fresh
                 = (Ok (Some "AB"), ?[w'])) by (vm_compute; reflexivity).
  destruct (known_only_grows_from_seed ab (mock (slow_on ["A"; "AB"])))
    as (_ & _ & _ & _ & Hfinal).
  destruct (Hfinal _ _ _ _ Hrun) as (w1 & suffix & _ & Hs & Hall).
  exists suffix. split; [exact Hrun|]. split; assumption.
Defined.

(** ** Failures and output *)

Lemma run_returns (cfg : Config) (oracle : Oracle) (fuel : nat) (w : World) :
  attempts_per_char cfg <> O ->
  exists r w', run cfg oracle fuel w = (Ok r, w').
Proof.
  intros Hn. unfold run, bind at 1.
  destruct (loop_returns cfg oracle fuel Hn (known cfg) w) as (r & w1 & ->).
  destruct r as [secret|]; unfold bind, print, ret; eauto.
Qed.

(** A run that returns stalled at the secret it reports. *)
Lemma run_ends_in_stall (cfg : Config) (oracle : Oracle) (fuel : nat)
      (w w' : World) (secret : string) :
  run cfg oracle fuel w = (Ok (Some secret), w') ->
  exists w1 w2 candidates,
    Reaches cfg oracle (known cfg) w secret w1 /\
    discoverNextCharacter cfg oracle secret w1 = (Ok (None, candidates), w2) /\
    w' = {| now := now w2; network := network w2;
            stdout := (stdout w2 ++ report_lines candidates)
                      ++ [SecretDiscovered secret] |}.
Proof.
  intros H.
  destruct (run_inv cfg oracle fuel w w' secret H) as (w1 & Hloop & ->).
  destruct (loop_inv cfg oracle fuel _ _ _ _ Hloop) as (w2 & Hreach & Hit).
  destruct (iteration_inv cfg oracle _ _ _ _ Hit) as (found & cands & w3 & Hd & Hs).
  destruct found as [c|]; destruct Hs as [Hs ->]; [discriminate|].
  exists w2, w3, cands. repeat split; assumption.
Qed.

(** C4, as the code has it.  A request that raises [RequestException] is
    caught inside its trial, and the trial still adds what the request took
    (the time it really took: nothing sets it to the timeout); the average
    divides the sum over all trials, failed ones included, by the full
    repeat count.  No run raises, and a run that ends has stalled: its last
    pass is a charset loop that accepted nothing. *)
Theorem request_failures_absorbed (cfg : Config) (oracle : Oracle) :
  attempts_per_char cfg <> O ->
  (forall payload total w,
      let r := exchange oracle (network w) (url cfg) payload 3 in
      (failed r = true ->
       fst (requests_get oracle (url cfg) payload 3 w) = Raise RequestException) /\
      exists t w',
        trial cfg oracle payload total w = (Ok t, w') /\
        t == total + took r) /\
  (forall payload w,
      exists a w',
        avg_response_time cfg oracle payload w = (Ok a, w') /\
        a == Qsum (map took (trials cfg oracle payload (attempts_per_char cfg)
                                    (network w)))
             / inject_Z (Z.of_nat (attempts_per_char cfg))) /\
  (forall fuel w, exists r w', run cfg oracle fuel w = (Ok r, w')) /\
  (forall fuel w secret w',
      run cfg oracle fuel w = (Ok (Some secret), w') ->
      exists w1 w2 candidates,
        Reaches cfg oracle (known cfg) w secret w1 /\
        discoverNextCharacter cfg oracle secret w1 = (Ok (None, candidates), w2)).
Proof.
  intros Hn. split; [|split; [|split]].
  - intros payload total w r. split.
    + intros Hf. unfold requests_get. cbn [fst]. fold r. now rewrite Hf.
    + destruct (trial_elapsed cfg oracle payload total w)
        as (t & w' & Hrun & _ & Ht & Hd).
      exists t, w'. split; [exact Hrun|]. now rewrite Ht, Hd.
  - intros payload w.
    destruct (avg_response_time_run cfg oracle payload w Hn)
      as (a & w' & Hrun & _ & _ & Ha).
    exists a, w'. now split.
  - intros fuel w. now apply run_returns.
  - intros fuel w secret w' H.
    destruct (run_ends_in_stall cfg oracle fuel w w' secret H)
      as (w1 & w2 & cands & Hreach & Hd & _).
    now exists w1, w2, cands.
Qed.

Lemma request_failures_absorbed_witness :
  attempts_per_char tic <> O /\
  exists r w', run tic refused 1 fresh = (Ok r, w').
Proof.
  split; [discriminate|].
  destruct (request_failures_absorbed tic refused) as (_ & _ & Hrun & _);
    [discriminate|].
  apply Hrun.
Defined.

(** C4 fails as stated: the first of seven requests is refused after 10 ms
    and the other six are answered in 100 ms; the failed trial counts for
    its 10 ms, not for the 3 s of the timeout. *)
Lemma failed_trial_not_recorded_as_timeout :
  exists a w',
    avg_response_time tic refused_once "Ca" fresh = (Ok a, w') /\
    map failed (network w') = [true; false; false; false; false; false; false] /\
    a == ((1 # 100) + 6 * (1 # 10)) / 7 /\
    ~ a == (3 + 6 * (1 # 10)) / 7.
Proof.
  eexists. eexists. split; [vm_compute; reflexivity|].
  split; [reflexivity|].
  split; [vm_compute; reflexivity | vm_compute; discriminate].
Qed.

Lemma avg_response_time_silent (cfg : Config) (oracle : Oracle)
      (payload : string) (w w' : World) (a : Q) :
  avg_response_time cfg oracle payload w = (Ok a, w') -> stdout w' = stdout w.
Proof.
  intros H. destruct (Nat.eq_dec (attempts_per_char cfg) O) as [Hz|Hn].
  - rewrite (avg_response_time_zero cfg oracle payload w Hz) in H. discriminate.
  - destruct (avg_response_time_run cfg oracle payload w Hn)
      as (a' & w1 & Hrun & _ & Hout & _).
    rewrite Hrun in H. now injection H as <- <-.
Qed.

Lemma Reaches_output (cfg : Config) (oracle : Oracle) (k k' : string)
      (w w' : World) :
  Reaches cfg oracle k w k' w' ->
  exists out, stdout w' = stdout w ++ out /\ Forall is_progress out.
Proof.
  induction 1 as [k w | k w k1 w1 k2 w2 Hstep Hreach IH].
  - exists []. now rewrite app_nil_r.
  - destruct IH as (out & Hout & Hall).
    destruct (iteration_inv cfg oracle _ _ _ _ Hstep)
      as (found & cands & w3 & Hd & Hs).
    destruct found as [c|]; destruct Hs as [Hs ->]; [|discriminate].
    apply discoverNextCharacter_inv in Hd.
    destruct Hd as (_ & _ & _ & _ & _ & _ & Hout1 & _).
    exists ((map trying cands ++ announcement k (Some c)) ++ out).
    split; [now rewrite Hout, Hout1, <- !app_assoc|].
    apply Forall_app. split; [|exact Hall].
    apply Forall_app. split; [|repeat constructor].
    apply Forall_map, Forall_forall. intros x _. exact I.
Qed.

(** C9, as the code has it.  [avg_response_time] prints nothing: the
    latency of a single trial never reaches the console.  The charset loop
    prints one line per candidate it measured, carrying the candidate's
    average, and the announcement when it accepts a character.  A run that
    ends has printed such progress lines, then the lines of the stalled
    position, the header, the ranked five slowest candidates, the stop
    message, and last the line reporting the secret. *)
Theorem console_output_lines (cfg : Config) (oracle : Oracle) :
  (forall payload w a w',
      avg_response_time cfg oracle payload w = (Ok a, w') ->
      stdout w' = stdout w) /\
  (forall k w found candidates w',
      discoverNextCharacter cfg oracle k w = (Ok (found, candidates), w') ->
      stdout w' = stdout w ++ map trying candidates ++ announcement k found) /\
  (forall fuel w secret w',
      run cfg oracle fuel w = (Ok (Some secret), w') ->
      exists progress candidates,
        Forall is_progress progress /\
        stdout w' =
          stdout w ++ progress ++ map trying candidates
          ++ (NoCharacterCrossed
                :: map slowest (firstn 5 (sort_desc candidates)) ++ [Stopping])
          ++ [SecretDiscovered secret]).
Proof.
  split; [|split].
  - intros payload w a w'. apply avg_response_time_silent.
  - intros k w found candidates w' H.
    apply discoverNextCharacter_inv in H.
    now destruct H as (_ & _ & _ & _ & _ & _ & Hout & _).
  - intros fuel w secret w' H.
    destruct (run_ends_in_stall cfg oracle fuel w w' secret H)
      as (w1 & w2 & cands & Hreach & Hd & ->).
    destruct (Reaches_output cfg oracle _ _ _ _ Hreach) as (out & Hout & Hall).
    apply discoverNextCharacter_inv in Hd.
    destruct Hd as (_ & _ & _ & _ & _ & _ & Hout2 & _).
    exists out, cands. split; [exact Hall|].
    cbn [stdout announcement] in *. rewrite Hout2, Hout, app_nil_r.
    unfold report_lines. now rewrite <- !app_assoc.
Qed.

Lemma console_output_lines_witness :
  exists w' progress candidates,
    run tic spike 1 fresh = (Ok (Some "C"), w') /\
    stdout w' =
      stdout fresh ++ progress ++ map trying candidates
      ++ (NoCharacterCrossed
            :: map slowest (firstn 5 (sort_desc candidates)) ++ [Stopping])
      ++ [SecretDiscovered "C"].
Proof.
  eexists.
  assert (Hrun : run tic spike 1 fresh = (Ok (Some "C"), ?[w']))
    by (vm_compute; reflexivity).
  destruct (console_output_lines tic spike) as (_ & _ & Hfinal).
  destruct (Hfinal _ _ _ _ Hrun) as (progress & cands & _ & Hout).
  exists progress, cands. split; [exact Hrun | exact Hout].
Defined.

(** C9 fails as stated: in this run the first trial takes a second, and no
    line of the output shows it; 455 requests are sent and only 70 lines
    carry a number (65 averages and the 5 ranked ones). *)
Lemma per_trial_latency_not_printed :
  let r := run tic spike 1 fresh in
  fst r = Ok (Some "C") /\
  map took (firstn 1 (network (snd r))) = [1] /\
  existsb (shows 1) (stdout (snd r)) = false /\
  length (network (snd r)) = 455%nat /\
  length (filter (fun l => match shown l with Some _ => true | None => false end)
                 (stdout (snd r))) = 70%nat.
Proof.
  vm_compute. repeat split; reflexivity.
Qed.

(** ** The whole run, by the averages it measures *)

Lemma find_skip {A : Type} (f : A -> bool) (l1 l2 : list A) :
  Forall (fun x => f x = false) l1 -> find f (l1 ++ l2) = find f l2.
Proof.
  induction 1 as [|x l1 Hx Hl IH]; cbn [app find]; [reflexivity|].
  now rewrite Hx.
Qed.

Section AverageFacts.

Variable cfg : Config.
Variable oracle : Oracle.
Variable latency : string -> Q.
Hypothesis Hn : attempts_per_char cfg <> O.

(** Whatever was sent before, the average measured for a payload compares
    with the threshold as [latency] of the payload does. *)
Hypothesis Hmean :
  forall p h,
    Qgtb (mean_took (attempts_per_char cfg)
                    (trials cfg oracle p (attempts_per_char cfg) h))
         (threshold cfg)
    = Qgtb (latency p) (threshold cfg).

Lemma average_measured (k : string) (tried : list ascii) :
  forall (cands : list (string * Q)) (h : list Request),
  map fst cands = map (add_char k) tried ->
  Forall2 (Measured cfg) cands (served cfg oracle k tried h) ->
  Forall2 (fun x c => Qgtb (snd x) (threshold cfg)
                      = Qgtb (latency (add_char k c)) (threshold cfg))
          cands tried.
Proof.
  induction tried as [|c tried IH]; intros cands h Hfst Hm;
    cbn [served] in Hm; inversion Hm as [|x g cands' gs Hx Hrest]; subst.
  - constructor.
  - cbn [map] in Hfst. injection Hfst as Hc Hfst.
    constructor; [|now apply (IH _ _ Hfst Hrest)].
    destruct Hx as (_ & _ & Hx).
    rewrite (Qgtb_compat _ _ _ Hx). apply Hmean.
Qed.

Lemma average_discover (k : string) (w w' : World)
      (found : option ascii) (cands : list (string * Q)) :
  discoverNextCharacter cfg oracle k w = (Ok (found, cands), w') ->
  found = first_above cfg latency k.
Proof.
  intros H. apply discoverNextCharacter_inv in H.
  destruct H as (tried & rest & Hcs & Hfst & Hm & _ & _ & Hf).
  pose proof (average_measured k tried cands (network w) Hfst Hm) as Hlatm.
  unfold first_above. rewrite Hcs. clear Hcs Hm Hfst.
  destruct found as [c|].
  - destruct Hf as (before & slow & a & -> & -> & Hslow & Ha).
    apply Forall2_app_inv_l in Hlatm.
    destruct Hlatm as (t1 & t2 & Hm1 & Hm2 & Ht).
    inversion Hm2 as [|? c2 ? t2' Hc2 Hnil]; subst. inversion Hnil; subst.
    apply app_inj_tail in Ht. destruct Ht as [<- <-].
    rewrite <- app_assoc. cbn [app]. rewrite find_skip.
    + cbn [find snd] in *. rewrite <- Hc2.
      now rewrite (proj2 (Qgtb_lt a (threshold cfg)) Ha).
    + clear Hm2 Hc2. induction Hm1 as [|x b slow before Hx Hrest IH];
        constructor.
      * inversion Hslow; subst. rewrite <- Hx. now apply Qgtb_le.
      * apply IH. now inversion Hslow.
  - destruct Hf as [-> Hall]. rewrite app_nil_r.
    rewrite <- (app_nil_r tried), find_skip; [reflexivity|].
    induction Hlatm as [|x b cands tried Hx Hrest IH]; constructor.
    + inversion Hall; subst. rewrite <- Hx. now apply Qgtb_le.
    + apply IH. now inversion Hall.
Qed.

Lemma average_loop (fuel : nat) :
  forall (k : string) (w : World),
  exists w', loop cfg oracle fuel k w
             = (Ok (reconstruct cfg latency fuel k), w').
Proof.
  induction fuel as [|fuel IH]; intros k w.
  - exists w. reflexivity.
  - destruct (discoverNextCharacter_returns cfg oracle k w Hn)
      as (found & cands & w1 & Hd).
    pose proof (iteration_run cfg oracle k w w1 found cands Hd) as Hit.
    apply average_discover in Hd. cbn [reconstruct]. rewrite <- Hd.
    destruct found as [c|].
    + rewrite (loop_extend _ _ fuel _ _ _ _ Hit). apply IH.
    + rewrite (loop_stall _ _ fuel _ _ _ _ Hit). eauto.
Qed.

Lemma average_run (fuel : nat) (w : World) :
  fst (run cfg oracle fuel w)
  = Ok (reconstruct cfg latency fuel (known cfg)).
Proof.
  unfold run, bind at 1.
  destruct (average_loop fuel (known cfg) w) as (w' & ->).
  now destruct (reconstruct cfg latency fuel (known cfg)).
Qed.

End AverageFacts.


Lemma existsb_In (c : ascii) (l : list ascii) :
  existsb (Ascii.eqb c) l = true -> In c l.
Proof.
  intros H. apply existsb_exists in H. destruct H as (x & Hx & Heq).
  apply Ascii.eqb_eq in Heq. now subst x.
Qed.



(** * Further properties of the prober *)

(** ** Ties in the ranking *)

Lemma with_latency_insert (v : Q) (x : string * Q) (l : list (string * Q)) :
  StronglySorted slower_first l ->
  with_latency v (insert_desc x l) = with_latency v (x :: l).
Proof.
  unfold with_latency.
  induction 1 as [|y l Hl IH Hy]; cbn [insert_desc]; [reflexivity|].
  destruct (Qle_bool (snd y) (snd x)) eqn:E; [reflexivity|].
  cbn [filter] in *. rewrite IH.
  destruct (Qeq_bool (snd x) v) eqn:Ex; [|reflexivity].
  destruct (Qeq_bool (snd y) v) eqn:Ey; [|reflexivity].
  apply Qeq_bool_iff in Ex, Ey.
  assert (Hle : Qle_bool (snd y) (snd x) = true).
  { apply Qle_bool_iff. rewrite Ex, Ey. apply Qle_refl. }
  congruence.
Qed.

(** X1. The sort behind the stall report is stable: among the candidates
    that share one latency, the sorted list keeps the order in which they
    were measured, the charset order. *)
Theorem sort_desc_keeps_order_of_ties (v : Q) (l : list (string * Q)) :
  with_latency v (sort_desc l) = with_latency v l.
Proof.
  induction l as [|x l IH]; cbn [sort_desc]; [reflexivity|].
  rewrite with_latency_insert by apply sort_desc_sorted.
  unfold with_latency in *. cbn [filter]. now rewrite IH.
Qed.

(** ** Every request is a probe, and every probe is accounted for *)

Lemma count_trying_app (l1 l2 : list Line) :
  count_trying (l1 ++ l2) = (count_trying l1 + count_trying l2)%nat.
Proof.
  induction l1 as [|l l1 IH]; cbn [app count_trying]; [reflexivity|].
  destruct l; cbn [plus]; now rewrite IH.
Qed.

Lemma count_trying_candidates (cands : list (string * Q)) :
  count_trying (map trying cands) = length cands.
Proof.
  induction cands as [|x cands IH]; cbn [map count_trying trying length];
    [reflexivity | now rewrite IH].
Qed.

Lemma count_trying_report (cands : list (string * Q)) :
  count_trying (report_lines cands) = O.
Proof.
  unfold report_lines. cbn [count_trying]. rewrite count_trying_app.
  cbn [count_trying]. rewrite Nat.add_0_r.
  induction (firstn 5 (sort_desc cands)) as [|x l IH]; [reflexivity | exact IH].
Qed.

Lemma announced_app (l1 l2 : list Line) :
  announced (l1 ++ l2) = announced l1 ++ announced l2.
Proof.
  induction l1 as [|l l1 IH]; cbn [app announced]; [reflexivity|].
  destruct l; cbn [app]; now rewrite IH.
Qed.

Lemma announced_candidates (cands : list (string * Q)) :
  announced (map trying cands) = [].
Proof.
  induction cands as [|x cands IH]; [reflexivity | exact IH].
Qed.

Lemma announced_report (cands : list (string * Q)) :
  announced (report_lines cands) = [].
Proof.
  unfold report_lines. cbn [announced]. rewrite announced_app.
  cbn [announced]. rewrite app_nil_r.
  induction (firstn 5 (sort_desc cands)) as [|x l IH]; [reflexivity | exact IH].
Qed.

Section ProbeFacts.

Variable cfg : Config.
Variable oracle : Oracle.

Lemma served_probes (k : string) (tried : list ascii) :
  forall h,
  Forall (fun r => target r = url cfg /\ timeout r = 3 /\
                   exists c, In c tried /\ query r = add_char k c)
         (concat (served cfg oracle k tried h)) /\
  length (concat (served cfg oracle k tried h))
  = (attempts_per_char cfg * length tried)%nat.
Proof.
  induction tried as [|c tried IH]; intros h; cbn [served concat length].
  - split; [constructor | lia].
  - destruct (IH (h ++ trials cfg oracle (add_char k c) (attempts_per_char cfg) h))
      as [Hall Hlen].
    split.
    + apply Forall_app. split.
      * pose proof (trials_query cfg oracle (add_char k c)
                                 (attempts_per_char cfg) h) as Hq.
        pose proof (trials_timeout cfg oracle (add_char k c)
                                   (attempts_per_char cfg) h) as Ht.
        rewrite Forall_forall in *. intros r Hr.
        destruct (Hq r Hr) as [Hu Hp]. repeat split; auto.
        exists c. split; [now left | exact Hp].
      * eapply Forall_impl; [|exact Hall].
        intros r (Hu & Ht & c' & Hc' & Hq). repeat split; auto.
        exists c'. split; [now right | exact Hq].
    + rewrite length_app, Hlen, trials_length. lia.
Qed.

(** What one charset loop leaves behind, whatever it returns. *)
Lemma discoverNextCharacter_trace (k : string) (w : World) :
  exists new out,
    network (snd (discoverNextCharacter cfg oracle k w)) = network w ++ new /\
    stdout (snd (discoverNextCharacter cfg oracle k w)) = stdout w ++ out /\
    Forall (ProbeAt cfg k) new /\
    length new = (attempts_per_char cfg * count_trying out)%nat /\
    (length new <= attempts_per_char cfg * length (chars cfg))%nat.
Proof.
  destruct (Nat.eq_dec (attempts_per_char cfg) O) as [Hz|Hn].
  - exists [], []. unfold discoverNextCharacter.
    rewrite (scan_zero cfg oracle k (chars cfg) [] w Hz).
    destruct (chars cfg); cbn [snd length count_trying]; rewrite !app_nil_r;
      repeat split; try constructor; lia.
  - destruct (discoverNextCharacter_returns cfg oracle k w Hn)
      as (found & cands & w' & Hrun).
    rewrite Hrun. cbn [snd].
    destruct (discoverNextCharacter_inv cfg oracle k w w' found cands Hrun)
      as (tried & rest & Hcs & Hfst & _ & Hnet & Hout & _).
    destruct (served_probes k tried (network w)) as [Hall Hlen].
    assert (Hcount : length cands = length tried).
    { rewrite <- (length_map fst cands), Hfst. apply length_map. }
    exists (concat (served cfg oracle k tried (network w))),
           (map trying cands ++ announcement k found).
    split; [exact Hnet|]. split; [exact Hout|]. split; [|split].
    + eapply Forall_impl; [|exact Hall].
      intros r (Hu & Ht & c & Hc & Hq). repeat split; auto.
      exists c. split; [|exact Hq].
      rewrite Hcs. apply in_or_app. now left.
    + rewrite Hlen, count_trying_app, count_trying_candidates, Hcount.
      destruct found; cbn [announcement count_trying]; lia.
    + rewrite Hlen, Hcs, length_app. nia.
Qed.

Lemma iteration_raises (k : string) (w w1 : World) (e : Error) :
  discoverNextCharacter cfg oracle k w = (Raise e, w1) ->
  iteration cfg oracle k w = (Raise e, w1).
Proof.
  intros H. unfold iteration, bind at 1. now rewrite H.
Qed.

Lemma loop_raises (fuel : nat) (k : string) (w w1 : World) (e : Error) :
  iteration cfg oracle k w = (Raise e, w1) ->
  loop cfg oracle (S fuel) k w = (Raise e, w1).
Proof.
  intros H. cbn [loop]. unfold bind at 1. now rewrite H.
Qed.

Lemma iteration_trace (k : string) (w : World) :
  exists new out,
    network (snd (iteration cfg oracle k w)) = network w ++ new /\
    stdout (snd (iteration cfg oracle k w)) = stdout w ++ out /\
    Forall (ProbeAt cfg k) new /\
    length new = (attempts_per_char cfg * count_trying out)%nat.
Proof.
  destruct (discoverNextCharacter_trace k w)
    as (new & out & Hnet & Hout & Hall & Hlen & _).
  destruct (discoverNextCharacter cfg oracle k w) as [[[found cands]|e] w1] eqn:E;
    cbn [snd] in Hnet, Hout.
  - rewrite (iteration_run cfg oracle k w w1 found cands E).
    destruct found as [c|]; cbn [snd network stdout].
    + exists new, out. repeat split; assumption.
    + exists new, (out ++ report_lines cands).
      rewrite Hout, <- app_assoc, count_trying_app, count_trying_report.
      repeat split; try assumption. lia.
  - rewrite (iteration_raises k w w1 e E). cbn [snd].
    exists new, out. repeat split; assumption.
Qed.

Lemma loop_trace (fuel : nat) :
  forall (suffix : list ascii) (w : World),
  Forall (fun c => In c (chars cfg)) suffix ->
  exists new out,
    network (snd (loop cfg oracle fuel
                       (known cfg ++ string_of_list_ascii suffix) w))
    = network w ++ new /\
    stdout (snd (loop cfg oracle fuel
                      (known cfg ++ string_of_list_ascii suffix) w))
    = stdout w ++ out /\
    Forall (Probe cfg) new /\
    length new = (attempts_per_char cfg * count_trying out)%nat.
Proof.
  induction fuel as [|fuel IH]; intros suffix w Hsuf.
  - exists [], []. cbn [loop]. unfold ret. cbn [snd length count_trying].
    rewrite !app_nil_r. repeat split; try constructor. lia.
  - set (k := (known cfg ++ string_of_list_ascii suffix)%string).
    destruct (iteration_trace k w) as (new & out & Hnet & Hout & Hall & Hlen).
    assert (Hprobe : Forall (Probe cfg) new).
    { eapply Forall_impl; [|exact Hall]. intros r Hr. now exists suffix. }
    destruct (iteration cfg oracle k w) as [[[k1|k1]|e] w1] eqn:E;
      cbn [snd] in Hnet, Hout.
    + rewrite (loop_extend cfg oracle fuel k k1 w w1 E).
      destruct (iteration_extends cfg oracle k k1 w w1 E) as (c & Hc & ->).
      assert (Hk : add_char k c
                   = (known cfg ++ string_of_list_ascii (suffix ++ [c]))%string).
      { unfold add_char, k. rewrite append_assoc. f_equal.
        clear. induction suffix as [|a suffix IH];
          cbn [app string_of_list_ascii append]; [reflexivity | now rewrite IH]. }
      rewrite Hk.
      destruct (IH (suffix ++ [c]) w1) as (new2 & out2 & Hnet2 & Hout2 & Hall2 & Hlen2).
      { apply Forall_app. split; [exact Hsuf | now constructor]. }
      exists (new ++ new2), (out ++ out2).
      rewrite Hnet2, Hout2, Hnet, Hout, <- !app_assoc.
      rewrite length_app, count_trying_app, Hlen, Hlen2.
      repeat split; [now apply Forall_app | lia].
    + rewrite (loop_stall cfg oracle fuel k k1 w w1 E). cbn [snd].
      exists new, out. repeat split; assumption.
    + rewrite (loop_raises fuel k w w1 e E). cbn [snd].
      exists new, out. repeat split; assumption.
Qed.

Lemma run_not_ended (fuel : nat) (w w1 : World) (r : Result (option string)) :
  loop cfg oracle fuel (known cfg) w = (r, w1) ->
  (forall secret, r <> Ok (Some secret)) ->
  run cfg oracle fuel w = (r, w1).
Proof.
  intros H Hr. unfold run, bind at 1. rewrite H.
  destruct r as [[secret|]|e]; [now destruct (Hr secret) | reflexivity..].
Qed.

Lemma run_trace (fuel : nat) (w : World) :
  exists new out,
    network (snd (run cfg oracle fuel w)) = network w ++ new /\
    stdout (snd (run cfg oracle fuel w)) = stdout w ++ out /\
    Forall (Probe cfg) new /\
    length new = (attempts_per_char cfg * count_trying out)%nat.
Proof.
  destruct (loop_trace fuel [] w (Forall_nil _))
    as (new & out & Hnet & Hout & Hall & Hlen).
  cbn [string_of_list_ascii] in Hnet, Hout. rewrite append_nil_r in Hnet, Hout.
  destruct (loop cfg oracle fuel (known cfg) w) as [[[secret|]|e] w1] eqn:E;
    cbn [snd] in *.
  - rewrite (run_of_loop cfg oracle fuel w w1 secret E). cbn [snd network stdout].
    exists new, (out ++ [SecretDiscovered secret]).
    rewrite count_trying_app. cbn [count_trying].
    split; [exact Hnet|]. split; [now rewrite Hout, <- app_assoc|].
    split; [exact Hall | lia].
  - rewrite (run_not_ended fuel w w1 _ E) by discriminate. cbn [snd].
    exists new, out. repeat split; assumption.
  - rewrite (run_not_ended fuel w w1 _ E) by discriminate. cbn [snd].
    exists new, out. repeat split; assumption.
Qed.

End ProbeFacts.

(** X2. Whatever the network does and however the run ends (stall, out of
    fuel, exception), every request it sent is a GET to the configured URL
    with the 3 s timeout, carrying the seed followed by one or more
    characters of the charset: nothing else ever goes out, and nothing
    already on the network log is touched. *)
Theorem run_sends_only_probes
        (cfg : Config) (oracle : Oracle) (fuel : nat) (w : World) :
  exists new,
    network (snd (run cfg oracle fuel w)) = network w ++ new /\
    Forall (fun r =>
              target r = url cfg /\ timeout r = 3 /\
              exists suffix c,
                Forall (fun x => In x (chars cfg)) suffix /\
                In c (chars cfg) /\
                query r = (known cfg ++ string_of_list_ascii suffix
                           ++ String c "")%string)
           new.
Proof.
  destruct (run_trace cfg oracle fuel w) as (new & out & Hnet & _ & Hall & _).
  exists new. split; [exact Hnet|].
  eapply Forall_impl; [|exact Hall].
  intros r (suffix & Hsuf & Hu & Ht & c & Hc & Hq).
  repeat split; auto. exists suffix, c. repeat split; auto.
  rewrite Hq. unfold add_char. apply append_assoc.
Qed.

(** X3. Requests and output stay in step: over a whole run, however it
    ends, the number of requests sent is the repeat count times the number
    of "Trying" lines printed, and a single position costs at most the
    repeat count times the size of the charset. *)
Theorem run_requests_match_trying_lines
        (cfg : Config) (oracle : Oracle) (fuel : nat) (w : World) :
  (exists new out,
      network (snd (run cfg oracle fuel w)) = network w ++ new /\
      stdout (snd (run cfg oracle fuel w)) = stdout w ++ out /\
      length new = (attempts_per_char cfg * count_trying out)%nat) /\
  (forall k, exists new,
      network (snd (discoverNextCharacter cfg oracle k w)) = network w ++ new /\
      (length new <= attempts_per_char cfg * length (chars cfg))%nat).
Proof.
  split.
  - destruct (run_trace cfg oracle fuel w) as (new & out & Hnet & Hout & _ & Hlen).
    now exists new, out.
  - intros k.
    destruct (discoverNextCharacter_trace cfg oracle k w)
      as (new & out & Hnet & _ & _ & _ & Hle).
    now exists new.
Qed.

(** ** Degenerate configurations *)

(** X4. With a repeat count of zero and a charset that is not empty, the
    first measurement divides by zero: the run raises [ZeroDivisionError]
    before any request is sent or any line printed. *)
Theorem run_zero_attempts_raises
        (cfg : Config) (oracle : Oracle) (fuel : nat) (w : World) :
  attempts_per_char cfg = O ->
  chars cfg <> [] ->
  run cfg oracle (S fuel) w = (Raise ZeroDivisionError, w).
Proof.
  intros Hz Hne.
  assert (Hd : discoverNextCharacter cfg oracle (known cfg) w
               = (Raise ZeroDivisionError, w)).
  { unfold discoverNextCharacter. rewrite scan_zero by exact Hz.
    now destruct (chars cfg). }
  apply run_not_ended; [|discriminate].
  now apply loop_raises, iteration_raises.
Qed.

Lemma run_zero_attempts_raises_witness :
  run {| url := url tic; charset := charset tic; threshold := threshold tic;
         attempts_per_char := 0; known := known tic |} refused 1 fresh
  = (Raise ZeroDivisionError, fresh).
Proof.
  apply run_zero_attempts_raises; [reflexivity | discriminate].
Defined.

(** X5. With an empty charset the run stalls at once, whatever the repeat
    count: no request is sent, the report has no ranked line, and the
    secret reported is the seed. *)
Theorem run_empty_charset_stalls
        (cfg : Config) (oracle : Oracle) (fuel : nat) (w : World) :
  charset cfg = ""%string ->
  run cfg oracle (S fuel) w =
  (Ok (Some (known cfg)),
   {| now := now w; network := network w;
      stdout := stdout w ++ [NoCharacterCrossed; Stopping;
                             SecretDiscovered (known cfg)] |}).
Proof.
  intros He.
  assert (Hd : discoverNextCharacter cfg oracle (known cfg) w = (Ok (None, []), w)).
  { unfold discoverNextCharacter, chars. now rewrite He. }
  pose proof (iteration_run cfg oracle _ _ _ _ _ Hd) as Hit.
  rewrite (run_of_loop cfg oracle (S fuel) w _ (known cfg)
                       (loop_stall cfg oracle fuel _ _ _ _ Hit)).
  cbn [now network stdout report_lines sort_desc firstn map app].
  now rewrite <- app_assoc.
Qed.

Lemma run_empty_charset_stalls_witness :
  fst (run {| url := url tic; charset := ""; threshold := threshold tic;
              attempts_per_char := 7; known := "C" |} refused 1 fresh)
  = Ok (Some "C").
Proof.
  now rewrite run_empty_charset_stalls.
Defined.

(** ** Networks that are always slow, or never *)

Lemma Qsum_lower_strict (lo : Q) (l : list Q) :
  Forall (fun x => lo < x) l -> l <> [] ->
  inject_Z (Z.of_nat (length l)) * lo < Qsum l.
Proof.
  induction 1 as [|x l Hx Hl IH]; intros Hne; [congruence|].
  cbn [length Qsum].
  rewrite Nat2Z.inj_succ, <- Z.add_1_r, inject_Z_plus.
  change (inject_Z 1) with 1.
  setoid_replace ((inject_Z (Z.of_nat (length l)) + 1) * lo)
    with (lo + inject_Z (Z.of_nat (length l)) * lo) by ring.
  destruct l as [|y l].
  - cbn [length Qsum]. change (inject_Z (Z.of_nat 0)) with 0.
    setoid_replace (lo + 0 * lo) with lo by ring.
    setoid_replace (x + 0) with x by ring. exact Hx.
  - apply Qplus_lt_le_compat; [exact Hx|].
    apply Qlt_le_weak, IH. discriminate.
Qed.

Section Extremes.

Variable cfg : Config.
Variable oracle : Oracle.
Hypothesis Hn : attempts_per_char cfg <> O.

(** For the exact mean only: a bound on every request carries over to the
    mean.  (In binary64 the computed mean may be off by rounding; the
    properties below are therefore stated on the measured averages.) *)
Lemma trials_took_all (P : Q -> Prop) (payload : string) (n : nat) :
  (forall h u p t, P (snd (oracle h u p t))) ->
  forall h, Forall (fun r => P (took r)) (trials cfg oracle payload n h).
Proof.
  intros HP. induction n as [|n IH]; intros h; cbn [trials]; constructor.
  - apply HP.
  - apply IH.
Qed.

Lemma mean_above (payload : string) (h : list Request) :
  (forall h u p t, threshold cfg < snd (oracle h u p t)) ->
  threshold cfg
  < mean_took (attempts_per_char cfg)
              (trials cfg oracle payload (attempts_per_char cfg) h).
Proof.
  intros Hslow. unfold mean_took.
  pose proof (trials_took_all (fun x => threshold cfg < x) payload
                              (attempts_per_char cfg) Hslow h) as Hall.
  apply Qlt_shift_div_l; [now apply inject_nat_pos|].
  rewrite Qmult_comm.
  rewrite <- (trials_length cfg oracle payload (attempts_per_char cfg) h) at 1.
  rewrite <- (length_map took).
  apply Qsum_lower_strict.
  - now apply Forall_map.
  - intros Hnil. apply (f_equal (@length Q)) in Hnil.
    rewrite length_map, trials_length in Hnil. cbn [length] in Hnil. congruence.
Qed.

Lemma mean_below (payload : string) (h : list Request) :
  (forall h u p t, snd (oracle h u p t) <= threshold cfg) ->
  mean_took (attempts_per_char cfg)
            (trials cfg oracle payload (attempts_per_char cfg) h)
  <= threshold cfg.
Proof.
  intros Hfast. unfold mean_took.
  pose proof (trials_took_all (fun x => x <= threshold cfg) payload
                              (attempts_per_char cfg) Hfast h) as Hall.
  apply Qle_shift_div_r; [now apply inject_nat_pos|].
  rewrite Qmult_comm.
  rewrite <- (trials_length cfg oracle payload (attempts_per_char cfg) h) at 2.
  rewrite <- (length_map took).
  apply Qsum_upper. now apply Forall_map.
Qed.

(** The figure of every candidate is what [mean_took] makes of the trials
    the oracle served for it; so a bound on all such means bounds all
    candidates. *)
Lemma candidates_all (P : Q -> Prop) (k : string) (tried : list ascii) :
  (forall a b, a == b -> P b -> P a) ->
  (forall payload h,
      P (mean_took (attempts_per_char cfg)
                   (trials cfg oracle payload (attempts_per_char cfg) h))) ->
  forall cands h,
  Forall2 (Measured cfg) cands (served cfg oracle k tried h) ->
  Forall (fun x => P (snd x)) cands.
Proof.
  intros Hcompat HP.
  induction tried as [|c tried IH]; intros cands h Hm;
    cbn [served] in Hm; inversion Hm as [|x g cands' gs Hx Hrest]; subst.
  - constructor.
  - constructor; [|now apply (IH _ _ Hrest)].
    destruct Hx as (_ & _ & Hx). apply (Hcompat _ _ Hx). apply HP.
Qed.

Lemma discover_when_always_slow (c : ascii) (s k : string) (w : World) :
  charset cfg = String c s ->
  (forall p h,
      threshold cfg
      < mean_took (attempts_per_char cfg)
                  (trials cfg oracle p (attempts_per_char cfg) h)) ->
  exists a w1,
    discoverNextCharacter cfg oracle k w
    = (Ok (Some c, [(add_char k c, a)]), w1) /\
    length (network w1) = (length (network w) + attempts_per_char cfg)%nat.
Proof.
  intros Hc Hslow.
  destruct (discoverNextCharacter_returns cfg oracle k w Hn)
    as (found & cands & w1 & Hrun).
  destruct (discoverNextCharacter_inv cfg oracle k w w1 found cands Hrun)
    as (tried & rest & Hcs & Hfst & Hm & Hnet & _ & Hf).
  assert (Habove : Forall (fun x => threshold cfg < snd x) cands).
  { apply (candidates_all (fun x => threshold cfg < x) k tried) with (h := network w).
    - intros a b Hab Hb. now rewrite Hab.
    - intros payload h. apply Hslow.
    - exact Hm. }
  unfold chars in Hcs. rewrite Hc in Hcs. cbn [list_ascii_of_string] in Hcs.
  destruct found as [c'|].
  - destruct Hf as (before & slow & a & -> & -> & Hslow' & Ha).
    destruct slow as [|x slow].
    + destruct before as [|b before]; [|destruct before; discriminate Hfst].
      cbn [app] in *. injection Hcs as <- _.
      exists a, w1. split; [exact Hrun|].
      rewrite Hnet. cbn [served concat]. rewrite app_nil_r, length_app.
      now rewrite trials_length.
    + exfalso. inversion Hslow' as [|? ? Hle _]; subst.
      inversion Habove as [|? ? Hlt _]; subst.
      exact (Qlt_not_le _ _ Hlt Hle).
  - exfalso. destruct Hf as [-> Hall]. rewrite app_nil_r in Hcs. subst tried.
    destruct cands as [|x cands]; [discriminate Hfst|].
    inversion Hall as [|? ? Hle _]; subst.
    inversion Habove as [|? ? Hlt _]; subst.
    exact (Qlt_not_le _ _ Hlt Hle).
Qed.

Lemma loop_when_always_slow (c : ascii) (s : string) :
  charset cfg = String c s ->
  (forall p h,
      threshold cfg
      < mean_took (attempts_per_char cfg)
                  (trials cfg oracle p (attempts_per_char cfg) h)) ->
  forall fuel k w,
  exists w',
    loop cfg oracle fuel k w = (Ok None, w') /\
    length (network w') = (length (network w) + attempts_per_char cfg * fuel)%nat /\
    Reaches cfg oracle k w (k ++ string_of_list_ascii (repeat c fuel)) w'.
Proof.
  intros Hc Hslow. induction fuel as [|fuel IH]; intros k w.
  - exists w. cbn [loop repeat string_of_list_ascii]. rewrite append_nil_r.
    repeat split; [lia | constructor].
  - destruct (discover_when_always_slow c s k w Hc Hslow) as (a & w1 & Hd & Hlen).
    pose proof (iteration_run cfg oracle k w w1 _ _ Hd) as Hit. cbn iota in Hit.
    rewrite (loop_extend cfg oracle fuel k _ w w1 Hit).
    destruct (IH (add_char k c) w1) as (w' & Hloop & Hlen' & Hreach).
    exists w'. split; [exact Hloop|]. split; [lia|].
    cbn [repeat string_of_list_ascii].
    unfold add_char in Hreach. rewrite append_assoc in Hreach. cbn [append] in Hreach.
    econstructor; eassumption.
Qed.

Lemma discover_when_never_slow (k : string) (w : World) :
  (forall p h,
      mean_took (attempts_per_char cfg)
                (trials cfg oracle p (attempts_per_char cfg) h)
      <= threshold cfg) ->
  exists cands w1,
    discoverNextCharacter cfg oracle k w = (Ok (None, cands), w1) /\
    length (network w1)
    = (length (network w) + attempts_per_char cfg * length (chars cfg))%nat.
Proof.
  intros Hfast.
  destruct (discoverNextCharacter_returns cfg oracle k w Hn)
    as (found & cands & w1 & Hrun).
  destruct (discoverNextCharacter_inv cfg oracle k w w1 found cands Hrun)
    as (tried & rest & Hcs & Hfst & Hm & Hnet & _ & Hf).
  assert (Hbelow : Forall (fun x => snd x <= threshold cfg) cands).
  { apply (candidates_all (fun x => x <= threshold cfg) k tried) with (h := network w).
    - intros a b Hab Hb. now rewrite Hab.
    - intros payload h. apply Hfast.
    - exact Hm. }
  destruct found as [c'|].
  - exfalso. destruct Hf as (before & slow & a & _ & -> & _ & Ha).
    apply Forall_app in Hbelow. destruct Hbelow as [_ Hlast].
    inversion Hlast as [|? ? Hle _]; subst.
    exact (Qlt_not_le _ _ Ha Hle).
  - destruct Hf as [-> _]. rewrite app_nil_r in Hcs. subst tried.
    exists cands, w1. split; [exact Hrun|].
    rewrite Hnet, length_app.
    now rewrite (proj2 (served_probes cfg oracle k (chars cfg) (network w))).
Qed.

End Extremes.





(** ** What the announcements say *)

Lemma Reaches_announced (cfg : Config) (oracle : Oracle) (k k' : string)
      (w w' : World) :
  Reaches cfg oracle k w k' w' ->
  exists out,
    stdout w' = stdout w ++ out /\
    k' = (k ++ string_of_list_ascii (announced out))%string.
Proof.
  induction 1 as [k w | k w k1 w1 k2 w2 Hstep Hreach IH].
  - exists []. cbn [announced string_of_list_ascii].
    now rewrite app_nil_r, append_nil_r.
  - destruct IH as (out & Hout & ->).
    destruct (iteration_inv cfg oracle _ _ _ _ Hstep)
      as (found & cands & w3 & Hd & Hs).
    destruct found as [c|]; destruct Hs as [Hs ->]; [|discriminate].
    injection Hs as ->.
    apply discoverNextCharacter_inv in Hd.
    destruct Hd as (_ & _ & _ & _ & _ & _ & Hout1 & _).
    exists ((map trying cands ++ announcement k (Some c)) ++ out).
    split; [now rewrite Hout, Hout1, <- !app_assoc|].
    rewrite !announced_app, announced_candidates.
    cbn [announcement announced app string_of_list_ascii].
    unfold add_char. now rewrite append_assoc.
Qed.

(** X8. The announcements spell the secret: in a run that ends, the secret
    reported on the last line is the seed followed by the characters of the
    "Found next character" lines, in the order they were printed. *)
Theorem secret_is_seed_plus_announced
        (cfg : Config) (oracle : Oracle) (fuel : nat) (w w' : World)
        (secret : string) :
  run cfg oracle fuel w = (Ok (Some secret), w') ->
  exists out,
    stdout w' = stdout w ++ out ++ [SecretDiscovered secret] /\
    secret = (known cfg ++ string_of_list_ascii (announced out))%string.
Proof.
  intros H.
  destruct (run_ends_in_stall cfg oracle fuel w w' secret H)
    as (w1 & w2 & cands & Hreach & Hd & ->).
  destruct (Reaches_announced cfg oracle _ _ _ _ Hreach) as (out & Hout & Hk).
  apply discoverNextCharacter_inv in Hd.
  destruct Hd as (_ & _ & _ & _ & _ & _ & Hout2 & _).
  exists (out ++ map trying cands ++ report_lines cands).
  cbn [stdout announcement] in *. split.
  - rewrite Hout2, Hout, app_nil_r. now rewrite <- !app_assoc.
  - rewrite !announced_app, announced_candidates, announced_report.
    cbn [app]. now rewrite app_nil_r.
Qed.

Lemma secret_is_seed_plus_announced_witness :
  exists w' out,
    run ab (mock (slow_on ["A"; "AB"])) 3 fresh = (Ok (Some "AB"), w') /\
    announced out = ["A"%char; "B"%char].
Proof.
  eexists.
  assert (Hrun : run ab (mock (slow_on ["A"; "AB"])) 3 fresh
                 = (Ok (Some "AB"), ?[w'])) by (vm_compute; reflexivity).
  destruct (secret_is_seed_plus_announced _ _ _ _ _ _ Hrun) as (out & _ & Hs).
  exists out. split; [exact Hrun|].
  cbn [known ab append] in Hs.
  rewrite <- (list_ascii_of_string_of_list_ascii (announced out)), <- Hs.
  reflexivity.
Defined.

(** ** Failures are invisible *)

Section Latency.

Variable cfg : Config.
Variable oracle : Oracle.
Variable latency : string -> Q.
Hypothesis Hn : attempts_per_char cfg <> O.

(** What a request takes depends on its payload only; whether it fails may
    depend on anything. *)
Hypothesis Hlat : forall h u p t, snd (oracle h u p t) == latency p.

Lemma latency_sum (payload : string) (m : nat) (h : list Request) :
  Qsum (map took (trials cfg oracle payload m h))
  == inject_Z (Z.of_nat m) * latency payload.
Proof.
  revert h; induction m as [|m IH]; intros h.
  - cbn [trials map Qsum]. change (inject_Z (Z.of_nat 0)) with 0. ring.
  - cbn [trials map Qsum]. rewrite IH.
    change (took (exchange oracle h (url cfg) payload 3))
      with (snd (oracle h (url cfg) payload 3)).
    rewrite Hlat, Nat2Z.inj_succ, <- Z.add_1_r, inject_Z_plus.
    change (inject_Z 1) with 1. ring.
Qed.

Lemma latency_mean (payload : string) (h : list Request) :
  mean_took (attempts_per_char cfg)
            (trials cfg oracle payload (attempts_per_char cfg) h)
  == latency payload.
Proof.
  unfold mean_took. rewrite latency_sum. field.
  change 0 with (inject_Z 0). rewrite inject_Z_injective. lia.
Qed.

Lemma latency_measured (k : string) (tried : list ascii) :
  forall (cands : list (string * Q)) (h : list Request),
  map fst cands = map (add_char k) tried ->
  Forall2 (Measured cfg) cands (served cfg oracle k tried h) ->
  Forall2 (fun x c => Qgtb (snd x) (threshold cfg)
                      = Qgtb (latency (add_char k c)) (threshold cfg))
          cands tried.
Proof.
  induction tried as [|c tried IH]; intros cands h Hfst Hm;
    cbn [served] in Hm; inversion Hm as [|x g cands' gs Hx Hrest]; subst.
  - constructor.
  - cbn [map] in Hfst. injection Hfst as Hc Hfst.
    constructor; [|now apply (IH _ _ Hfst Hrest)].
    destruct Hx as (_ & _ & Hx). apply Qgtb_compat.
    rewrite Hx. apply latency_mean.
Qed.

Lemma latency_discover (k : string) (w w' : World)
      (found : option ascii) (cands : list (string * Q)) :
  discoverNextCharacter cfg oracle k w = (Ok (found, cands), w') ->
  found = first_above cfg latency k.
Proof.
  intros H. apply discoverNextCharacter_inv in H.
  destruct H as (tried & rest & Hcs & Hfst & Hm & _ & _ & Hf).
  pose proof (latency_measured k tried cands (network w) Hfst Hm) as Hlatm.
  unfold first_above. rewrite Hcs. clear Hcs Hm Hfst.
  destruct found as [c|].
  - destruct Hf as (before & slow & a & -> & -> & Hslow & Ha).
    apply Forall2_app_inv_l in Hlatm.
    destruct Hlatm as (t1 & t2 & Hm1 & Hm2 & Ht).
    inversion Hm2 as [|? c2 ? t2' Hc2 Hnil]; subst. inversion Hnil; subst.
    apply app_inj_tail in Ht. destruct Ht as [<- <-].
    rewrite <- app_assoc. cbn [app]. rewrite find_skip.
    + cbn [find snd] in *. rewrite <- Hc2.
      now rewrite (proj2 (Qgtb_lt a (threshold cfg)) Ha).
    + clear Hm2 Hc2. induction Hm1 as [|x b slow before Hx Hrest IH];
        constructor.
      * inversion Hslow; subst. rewrite <- Hx. now apply Qgtb_le.
      * apply IH. now inversion Hslow.
  - destruct Hf as [-> Hall]. rewrite app_nil_r.
    rewrite <- (app_nil_r tried), find_skip; [reflexivity|].
    induction Hlatm as [|x b cands tried Hx Hrest IH]; constructor.
    + inversion Hall; subst. rewrite <- Hx. now apply Qgtb_le.
    + apply IH. now inversion Hall.
Qed.

Lemma latency_loop (fuel : nat) :
  forall (k : string) (w : World),
  exists w', loop cfg oracle fuel k w
             = (Ok (reconstruct cfg latency fuel k), w').
Proof.
  induction fuel as [|fuel IH]; intros k w.
  - exists w. reflexivity.
  - destruct (discoverNextCharacter_returns cfg oracle k w Hn)
      as (found & cands & w1 & Hd).
    pose proof (iteration_run cfg oracle k w w1 found cands Hd) as Hit.
    apply latency_discover in Hd. cbn [reconstruct]. rewrite <- Hd.
    destruct found as [c|].
    + rewrite (loop_extend _ _ fuel _ _ _ _ Hit). apply IH.
    + rewrite (loop_stall _ _ fuel _ _ _ _ Hit). eauto.
Qed.

Lemma latency_run (fuel : nat) (w : World) :
  fst (run cfg oracle fuel w)
  = Ok (reconstruct cfg latency fuel (known cfg)).
Proof.
  unfold run, bind at 1.
  destruct (latency_loop fuel (known cfg) w) as (w' & ->).
  now destruct (reconstruct cfg latency fuel (known cfg)).
Qed.

End Latency.



(** * The guessing script *)

Module OpFacts.

Import Op.
Local Open Scope Z_scope.

(** ** The patterns *)

(** X10. For any well-formed reading of the clock the five time-based
    patterns lie between 0 and 99999 (hour-minute at most 2359, day-month
    between 101 and 3112, the tens-of-seconds form at most 23595), so the
    range filter of the guess list can only ever drop a pattern that is 0,
    as the hour-minute form is during the first minute of the day. *)
Theorem time_patterns_within_guess_range (now : Now) :
  valid_now now ->
  Forall (fun p => 0 <= p <= 99999) (time_patterns now) /\
  (forall p, In p (time_patterns now) -> in_range p = false -> p = 0) /\
  hour now * 100 + minute now <= 2359 /\
  101 <= day now * 100 + month now <= 3112 /\
  hour now * 1000 + minute now * 10 + second now / 10 <= 23595.
Proof.
  unfold valid_now, time_patterns. intros (Hy & Hmo & Hd & Hh & Hmi & Hs).
  pose proof (Z.mod_pos_bound (timestamp now) 100000 eq_refl) as Hts.
  assert (Hsec : 0 <= second now / 10 <= 5)
    by (Z.div_mod_to_equations; lia).
  split; [|split].
  - repeat constructor; lia.
  - intros p Hin Hr. unfold in_range in Hr.
    apply andb_false_iff in Hr.
    rewrite Z.leb_gt, Z.leb_gt in Hr.
    cbn [In] in Hin.
    destruct Hin as [<-|[<-|[<-|[<-|[<-|[]]]]]]; lia.
  - lia.
Qed.

Lemma time_patterns_within_guess_range_witness :
  valid_now noon /\ Forall (fun p => 0 <= p <= 99999) (time_patterns noon).
Proof.
  assert (H : valid_now noon) by (unfold valid_now, noon; cbn; lia).
  split; [exact H|]. apply (time_patterns_within_guess_range noon H).
Defined.

Lemma hex_digit_lower (c : ascii) :
  is_lower_hex c = true ->
  exists d, hex_digit c = Some d /\ 0 <= d <= 15 /\
            48 <= Z.of_nat (nat_of_ascii c) <= 102.
Proof.
  unfold is_lower_hex, hex_digit. cbv zeta.
  set (n := Z.of_nat (nat_of_ascii c)).
  destruct ((48 <=? n) && (n <=? 57)) eqn:E1.
  - intros _. apply andb_true_iff in E1. rewrite !Z.leb_le in E1.
    exists (n - 48). repeat split; lia.
  - cbn [orb]. intros E2. rewrite E2.
    apply andb_true_iff in E2. rewrite !Z.leb_le in E2.
    exists (n - 87). repeat split; lia.
Qed.

Lemma int16_from_lower (s : string) :
  forallb is_lower_hex (list_ascii_of_string s) = true ->
  forall acc, 0 <= acc ->
  exists v, int16_from acc s = Val v /\
            0 <= v < (acc + 1) * 16 ^ Z.of_nat (String.length s).
Proof.
  induction s as [|c s IH]; cbn [list_ascii_of_string forallb int16_from String.length];
    intros Hall acc Hacc.
  - exists acc. split; [reflexivity|]. cbn. lia.
  - apply andb_true_iff in Hall. destruct Hall as [Hc Hs].
    destruct (hex_digit_lower c Hc) as (d & -> & Hd & _).
    destruct (IH Hs (16 * acc + d)) as (v & Hv & Hb); [lia|].
    exists v. split; [exact Hv|].
    rewrite Nat2Z.inj_succ, Z.pow_succ_r by lia.
    split; [lia|].
    eapply Z.lt_le_trans; [apply Hb|].
    assert (0 < 16 ^ Z.of_nat (String.length s)) by (apply Z.pow_pos_nonneg; lia).
    nia.
Qed.

Lemma substring_lower (s : string) :
  forallb is_lower_hex (list_ascii_of_string s) = true ->
  forall n m,
  forallb is_lower_hex (list_ascii_of_string (substring n m s)) = true.
Proof.
  induction s as [|c s IH]; intros Hall n m.
  - destruct n, m; reflexivity.
  - cbn [list_ascii_of_string forallb] in Hall.
    apply andb_true_iff in Hall. destruct Hall as [Hc Hs].
    destruct n as [|n].
    + destruct m as [|m]; cbn [substring]; [reflexivity|].
      cbn [list_ascii_of_string forallb]. rewrite Hc. now apply IH.
    + cbn [substring]. now apply IH.
Qed.

Lemma substring_length (s : string) :
  forall n m, (n + m <= String.length s)%nat ->
  String.length (substring n m s) = m.
Proof.
  induction s as [|c s IH]; intros n m Hle; cbn [String.length] in Hle.
  - destruct n, m; try reflexivity; lia.
  - destruct n as [|n].
    + destruct m as [|m]; cbn [substring String.length]; [reflexivity|].
      rewrite IH by lia. reflexivity.
    + cbn [substring]. apply IH. lia.
Qed.

Lemma int16_lower5 (s : string) :
  String.length s = 5%nat ->
  forallb is_lower_hex (list_ascii_of_string s) = true ->
  exists v, int16 s = Val v /\ 0 <= v < 1048576.
Proof.
  intros Hlen Hall.
  destruct (int16_from_lower s Hall 0) as (v & Hv & Hb); [lia|].
  rewrite Hlen in Hb. exists v. split; [|exact Hb].
  destruct s; [discriminate Hlen | exact Hv].
Qed.

Lemma ord_sum_lower (s : string) :
  forallb is_lower_hex (list_ascii_of_string s) = true ->
  48 * Z.of_nat (String.length s) <= ord_sum s <= 102 * Z.of_nat (String.length s).
Proof.
  induction s as [|c s IH]; cbn [list_ascii_of_string forallb ord_sum String.length];
    intros Hall; [lia|].
  apply andb_true_iff in Hall. destruct Hall as [Hc Hs].
  destruct (hex_digit_lower c Hc) as (d & _ & _ & Hb).
  specialize (IH Hs). lia.
Qed.

(** X11. On a hexdigest (32 lower-case hex digits) the hash-based patterns
    never raise: [int(.., 16)] always parses the two five-digit slices.
    All three patterns lie between 0 and 99999, and the third is the plain
    sum of the character codes, between 1536 and 3264: its modulo never
    applies. *)
Theorem hash_patterns_of_hexdigest (cookie_hash : string) :
  is_hexdigest cookie_hash ->
  exists a b,
    hash_patterns cookie_hash = Val [a; b; ord_sum cookie_hash] /\
    0 <= a <= 99999 /\ 0 <= b <= 99999 /\
    1536 <= ord_sum cookie_hash <= 3264.
Proof.
  intros [Hlen Hall].
  assert (H1 : String.length (first5 cookie_hash) = 5%nat).
  { unfold first5. apply substring_length. rewrite Hlen. lia. }
  assert (H2 : String.length (last5 cookie_hash) = 5%nat).
  { unfold last5. apply substring_length. rewrite Hlen. lia. }
  destruct (int16_lower5 _ H1 (substring_lower _ Hall _ _)) as (x & Hx & _).
  destruct (int16_lower5 _ H2 (substring_lower _ Hall _ _)) as (y & Hy & _).
  pose proof (ord_sum_lower cookie_hash Hall) as Hsum. rewrite Hlen in Hsum.
  exists (x mod 100000), (y mod 100000).
  unfold hash_patterns. rewrite Hx, Hy.
  rewrite (Z.mod_small (ord_sum cookie_hash)) by lia.
  pose proof (Z.mod_pos_bound x 100000 eq_refl).
  pose proof (Z.mod_pos_bound y 100000 eq_refl).
  repeat split; lia.
Qed.

Lemma hash_patterns_of_hexdigest_witness :
  is_hexdigest digest_of_empty /\
  hash_patterns digest_of_empty = Val [68824; 41310; 2211].
Proof.
  assert (H : is_hexdigest digest_of_empty) by (split; reflexivity).
  split; [exact H|].
  destruct (hash_patterns_of_hexdigest digest_of_empty H) as (a & b & Heq & _).
  reflexivity.
Defined.

(** ** The guess list *)

Lemma ctf_numbers_in_range : forallb in_range ctf_numbers = true.
Proof. reflexivity. Qed.

Lemma ctf_numbers_distinct : NoDup ctf_numbers.
Proof.
  unfold ctf_numbers.
  repeat (constructor; [cbn [In]; intros H;
                        repeat (destruct H as [H|H]; [discriminate H|]);
                        exact H|]).
  constructor.
Qed.

Lemma NoDup_filter {A : Type} (f : A -> bool) (l : list A) :
  NoDup l -> NoDup (filter f l).
Proof.
  induction 1 as [|x l Hx Hl IH]; cbn [filter]; [constructor|].
  destruct (f x); [|exact IH].
  constructor; [|exact IH].
  intros Hin. apply filter_In in Hin. tauto.
Qed.

(** X12. Whatever order the set is listed in, the guess list holds no
    number twice, holds exactly the patterns and the sixteen CTF numbers
    that lie between 1 and 100000, so all sixteen CTF numbers, and is at
    least 16 and at most 16 plus the number of patterns long. *)
Theorem all_guesses_distinct_and_in_range
        (list_of_set : list Z -> list Z) (patterns : list Z) :
  lists_sets list_of_set ->
  NoDup (all_guesses list_of_set patterns) /\
  (forall n, In n (all_guesses list_of_set patterns) <->
             (In n patterns \/ In n ctf_numbers) /\ 1 <= n <= 100000) /\
  (16 <= length (all_guesses list_of_set patterns) <= length patterns + 16)%nat.
Proof.
  intros Hset. destruct (Hset (patterns ++ ctf_numbers)) as [Hnd Hin].
  assert (Hmem : forall n, In n (all_guesses list_of_set patterns) <->
                           (In n patterns \/ In n ctf_numbers) /\ 1 <= n <= 100000).
  { intros n. unfold all_guesses. rewrite filter_In, Hin, in_app_iff.
    unfold in_range. rewrite andb_true_iff, !Z.leb_le. tauto. }
  assert (Hnd' : NoDup (all_guesses list_of_set patterns))
    by now apply NoDup_filter.
  split; [exact Hnd'|]. split; [exact Hmem|]. split.
  - change 16%nat with (length ctf_numbers).
    apply NoDup_incl_length; [apply ctf_numbers_distinct|].
    intros n Hn. apply Hmem. split; [now right|].
    pose proof ctf_numbers_in_range as Hr.
    rewrite forallb_forall in Hr. specialize (Hr n Hn).
    unfold in_range in Hr. rewrite andb_true_iff, !Z.leb_le in Hr. exact Hr.
  - change 16%nat with (length ctf_numbers). rewrite <- length_app.
    apply NoDup_incl_length; [exact Hnd'|].
    intros n Hn. apply Hmem in Hn. apply in_or_app. tauto.
Qed.

Lemma all_guesses_distinct_and_in_range_witness :
  lists_sets (nodup Z.eq_dec) /\
  NoDup (all_guesses (nodup Z.eq_dec) [1200; 1406; 2025; 0; 42]).
Proof.
  assert (H : lists_sets (nodup Z.eq_dec)).
  { intros l. split; [apply NoDup_nodup | intros x; apply nodup_In]. }
  split; [exact H|].
  apply (all_guesses_distinct_and_in_range (nodup Z.eq_dec) _ H).
Defined.

(** ** One guess after the other *)

Ltac run_leaf :=
  cbn [posts wall slept console];
  eexists _, _, _, _;
  split; [reflexivity|]; cbn [posts wall slept console];
  split; [reflexivity|];
  split; [first [reflexivity | rewrite <- app_assoc; reflexivity]|];
  split; [reflexivity|];
  split; [first [reflexivity | symmetry; apply app_nil_r]|];
  split; [reflexivity|].

Ltac not_correct :=
  let H := fresh in
  intros ? (? & ? & ? & ? & ? & H & ? & ? & ? & ? & ? & ? & ? & ? & ?);
  first [discriminate H | injection H as <-; congruence].

Ltac failed_leaf side := run_leaf; split; [side | not_correct].

Lemma attempted_app (l1 l2 : list Printed) :
  attempted (l1 ++ l2) = attempted l1 ++ attempted l2.
Proof.
  induction l1 as [|l l1 IH]; cbn [app attempted]; [reflexivity|].
  destruct l; cbn [app]; now rewrite IH.
Qed.

Lemma attempted_patterns (ps : list Z) : attempted (map PatternLine ps) = [].
Proof.
  induction ps as [|x ps IH]; [reflexivity | exact IH].
Qed.

Lemma print_lines_run (ls : list Printed) (w : Env) :
  print_lines ls w =
  (Val tt, {| wall := wall w; posts := posts w; slept := slept w;
              console := console w ++ ls |}).
Proof.
  revert w; induction ls as [|l ls IH]; intros w; cbn [print_lines].
  - unfold pure. rewrite app_nil_r. now destruct w.
  - unfold and_then, print_line at 1. rewrite IH. cbn [wall posts slept console].
    now rewrite <- app_assoc.
Qed.

Section GuessLoopFacts.

Variable base_url : string.
Variable oracle : Server.

(** One pass of the loop: always one post, never an exception; it returns a
    flag exactly on a correct reply and sleeps at most once. *)
Lemma attempt_run (s : Session) (total i : nat) (number : Z) (w : Env) :
  let p := guess_post s base_url number in
  exists r w' out sl,
    attempt base_url oracle s total i number w = (Val r, w') /\
    posts w' = posts w ++ [p] /\
    console w' = console w ++ Attempt (i + 1) total number :: out /\
    attempted out = [] /\
    slept w' = slept w ++ sl /\
    wall w' = wall w /\
    match r with
    | Some flag => sl = [] /\ Correct (oracle (posts w) p) flag
    | None => (sl = [] \/ sl = [5] \/ sl = [2]) /\
              forall flag, ~ Correct (oracle (posts w) p) flag
    end.
Proof.
  intros p.
  unfold attempt, try_except, post_guess, session_post, response_json,
    answered_correct, and_then, lift, pure, print_line, sleep.
  cbn [posts wall slept console].
  fold (guess_post s base_url number). fold p.
  destruct (oracle (posts w) p) as [|resp] eqn:Ereply;
    [failed_leaf ltac:(now left)|].
  destruct (Z.eqb_spec (status_code resp) 429) as [E429|E429];
    [failed_leaf ltac:(right; now left)|].
  destruct (ok resp) eqn:Eok; [|failed_leaf ltac:(right; now right)].
  destruct (json resp) as [data|] eqn:Ejson; [|failed_leaf ltac:(now left)].
  destruct (py_in "data" data) as [[|]|e] eqn:Ein;
    [|failed_leaf ltac:(right; now right)|failed_leaf ltac:(now left)].
  destruct (getitem data "data") as [d|e] eqn:Ed; [|failed_leaf ltac:(now left)].
  destruct (getitem d "guessNumber") as [g|e] eqn:Eg; [|failed_leaf ltac:(now left)].
  destruct (getitem g "correct") as [c|e] eqn:Ec; [|failed_leaf ltac:(now left)].
  destruct (truthy c) eqn:Et; [|failed_leaf ltac:(right; now right)].
  destruct (getitem g "flag") as [flag|e] eqn:Ef; [|failed_leaf ltac:(now left)].
  run_leaf. split; [reflexivity|].
  exists resp, data, d, g, c. repeat split; assumption.
Qed.

Lemma guess_loop_run (s : Session) (total : nat) (gs : list Z) :
  forall (i : nat) (w : Env),
  exists r w' k out sl,
    guess_loop base_url oracle s total i gs w = (Val r, w') /\
    (k <= length gs)%nat /\
    posts w' = posts w ++ sent s base_url gs k /\
    console w' = console w ++ out /\
    attempted out = firstn k gs /\
    slept w' = slept w ++ sl /\
    wall w' = wall w /\
    Forall (fun x => x = 5 \/ x = 2) sl /\
    (forall j n, (j < k)%nat -> nth_error gs j = Some n ->
                 (S j < k)%nat \/ r = None ->
                 forall flag,
                   ~ Correct (oracle (posts w ++ sent s base_url gs j) (guess_post s base_url n))
                             flag) /\
    match r with
    | None => k = length gs /\ (length sl <= k)%nat
    | Some flag =>
        exists j n, k = S j /\ nth_error gs j = Some n /\ (length sl <= j)%nat /\
                    Correct (oracle (posts w ++ sent s base_url gs j) (guess_post s base_url n))
                            flag
    end.
Proof.
  induction gs as [|n gs IH]; intros i w.
  - exists None, w, O, [], []. cbn [guess_loop length firstn]. unfold pure, sent.
    cbn [firstn map length]. rewrite !app_nil_r.
    split; [reflexivity|]. split; [lia|]. do 5 (split; [reflexivity|]).
    split; [constructor|]. split; [|split; [reflexivity | lia]].
    intros j m Hj. lia.
  - cbn [guess_loop]. unfold and_then at 1.
    destruct (attempt_run s total i n w)
      as (r & w1 & out & sl & Hrun & Hposts & Hout & Hatt & Hsl & Hwall & Hr).
    cbv zeta in Hposts, Hr. rewrite Hrun.
    destruct r as [flag|].
    + destruct Hr as [-> Hc]. rewrite app_nil_r in Hsl.
      exists (Some flag), w1, 1%nat, (Attempt (i + 1) total n :: out), [].
      unfold pure, sent. cbn [firstn map length attempted].
      rewrite Hatt, app_nil_r.
      split; [reflexivity|]. split; [lia|]. split; [exact Hposts|].
      split; [exact Hout|]. split; [reflexivity|]. split; [exact Hsl|].
      split; [exact Hwall|]. split; [constructor|]. split.
      * intros j m Hj Hnth [Hlt|Hnone]; [lia | discriminate].
      * exists O, n. cbn [firstn map nth_error length]. rewrite app_nil_r.
        split; [reflexivity|]. split; [reflexivity|]. split; [lia | exact Hc].
    + destruct Hr as [Hsl1 Hnc].
      destruct (IH (S i) w1)
        as (r & w' & k & out2 & sl2 & Hrun2 & Hk & Hposts2 & Hout2 & Hatt2
            & Hsl2 & Hwall2 & Hall2 & Hbefore & Hr2).
      exists r, w', (S k), ((Attempt (i + 1) total n :: out) ++ out2), (sl ++ sl2).
      assert (Hshift : forall j, posts w1 ++ sent s base_url gs j
                                 = posts w ++ sent s base_url (n :: gs) (S j)).
      { intros j. unfold sent. cbn [firstn map].
        rewrite Hposts, <- app_assoc. reflexivity. }
      split; [exact Hrun2|]. split; [cbn [length]; lia|].
      split; [rewrite Hposts2; apply Hshift|].
      split; [rewrite Hout2, Hout, <- app_assoc; reflexivity|].
      split; [rewrite attempted_app; cbn [attempted firstn];
              now rewrite Hatt, Hatt2|].
      split; [rewrite Hsl2, Hsl, <- app_assoc; reflexivity|].
      split; [congruence|].
      assert (Hlen1 : (length sl <= 1)%nat)
        by (destruct Hsl1 as [-> | [-> | ->]]; cbn [length]; lia).
      assert (Hall1 : Forall (fun x => x = 5 \/ x = 2) sl)
        by (destruct Hsl1 as [-> | [-> | ->]]; repeat constructor; auto).
      split; [now apply Forall_app|].
      split.
      * intros j m Hj Hnth Hcase flag.
        destruct j as [|j].
        -- cbn [nth_error] in Hnth. injection Hnth as <-.
           unfold sent. cbn [firstn map]. rewrite app_nil_r. apply Hnc.
        -- cbn [nth_error] in Hnth. rewrite <- Hshift.
           apply (Hbefore j m); [lia | exact Hnth|].
           destruct Hcase as [Hlt|Hnone]; [left; lia | now right].
      * destruct r as [flag|].
        -- destruct Hr2 as (j & m & -> & Hnth & Hlen & Hc).
           exists (S j), m. rewrite <- Hshift. cbn [nth_error].
           rewrite length_app.
           split; [reflexivity|]. split; [exact Hnth|]. split; [lia | exact Hc].
        -- destruct Hr2 as [-> Hlen]. cbn [length]. rewrite length_app.
           split; [reflexivity | lia].
Qed.

End GuessLoopFacts.

(** X13. The loop posts one query per guess, in the order of the list, and
    never raises, whatever the server replies or however a post fails.  It
    returns a flag exactly when some reply was a correct one: the flag is
    that of the first such reply, and nothing is posted after it.
    Otherwise every guess was posted once: a guess that was rate-limited,
    or whose post failed, is not tried again. *)
Theorem guess_loop_posts_each_guess_once
        (base_url : string) (oracle : Server) (s : Session)
        (total i : nat) (gs : list Z) (w : Env) :
  exists r w' k out,
    guess_loop base_url oracle s total i gs w = (Val r, w') /\
    (k <= length gs)%nat /\
    posts w' = posts w ++ map (guess_post s base_url) (firstn k gs) /\
    console w' = console w ++ out /\
    attempted out = firstn k gs /\
    match r with
    | None =>
        k = length gs /\
        forall j n flag,
          nth_error gs j = Some n ->
          ~ Correct (oracle (posts w ++ map (guess_post s base_url) (firstn j gs))
                            (guess_post s base_url n)) flag
    | Some flag =>
        exists j n,
          k = S j /\ nth_error gs j = Some n /\
          Correct (oracle (posts w ++ map (guess_post s base_url) (firstn j gs))
                          (guess_post s base_url n)) flag /\
          forall j' n' flag',
            (j' < j)%nat -> nth_error gs j' = Some n' ->
            ~ Correct (oracle (posts w ++ map (guess_post s base_url) (firstn j' gs))
                              (guess_post s base_url n')) flag'
    end.
Proof.
  destruct (guess_loop_run base_url oracle s total gs i w)
    as (r & w' & k & out & sl & Hrun & Hk & Hposts & Hout & Hatt & _ & _ & _
        & Hbefore & Hr).
  exists r, w', k, out. unfold sent in *.
  repeat (split; [assumption|]).
  destruct r as [flag|].
  - destruct Hr as (j & n & -> & Hnth & _ & Hc).
    exists j, n. repeat (split; [assumption || reflexivity|]).
    intros j' n' flag' Hlt Hnth'.
    apply (Hbefore j' n'); [lia | exact Hnth' | left; lia].
  - destruct Hr as [-> _]. split; [reflexivity|].
    intros j n flag Hnth.
    apply (Hbefore j n); [|exact Hnth | now right].
    apply nth_error_Some. congruence.
Qed.

(** X14. Pacing: every sleep of the loop is of 5 s (after a 429) or of 2 s;
    there is at most one per post, and none after the post that brought
    the flag. *)
Theorem guess_loop_sleeps_between_posts
        (base_url : string) (oracle : Server) (s : Session)
        (total i : nat) (gs : list Z) (w : Env) :
  exists r w' new sl,
    guess_loop base_url oracle s total i gs w = (Val r, w') /\
    posts w' = posts w ++ new /\
    slept w' = slept w ++ sl /\
    Forall (fun x => x = 5 \/ x = 2) sl /\
    (length sl <= length new)%nat /\
    (forall flag, r = Some flag -> (length sl < length new)%nat).
Proof.
  destruct (guess_loop_run base_url oracle s total gs i w)
    as (r & w' & k & out & sl & Hrun & Hk & Hposts & _ & _ & Hsl & _ & Hall
        & _ & Hr).
  exists r, w', (sent s base_url gs k), sl.
  assert (Hlen : length (sent s base_url gs k) = k).
  { unfold sent. rewrite length_map, length_firstn. lia. }
  rewrite Hlen.
  repeat (split; [assumption|]).
  destruct r as [flag|].
  - destruct Hr as (j & n & -> & _ & Hle & _). split; [lia|]. intros _ _. lia.
  - destruct Hr as [_ Hle]. split; [exact Hle | discriminate].
Qed.

(** ** The whole of [try_smart_guesses] *)

Section SolverFacts.

Variable base_url : string.
Variable session_cookie : string.
Variable md5_hexdigest : string -> string.
Variable list_of_set : list Z -> list Z.
Variable oracle : Server.

Hypothesis Hmd5 : is_hexdigest (md5_hexdigest session_cookie).

(** [analyze_patterns] talks to nobody: it returns the five time patterns
    followed by three hash patterns. *)
Lemma analyze_patterns_run (w : Env) :
  exists hp w' out,
    analyze_patterns session_cookie md5_hexdigest w
    = (Val (time_patterns (wall w) ++ hp), w') /\
    hash_patterns (md5_hexdigest session_cookie) = Val hp /\
    length hp = 3%nat /\
    posts w' = posts w /\ slept w' = slept w /\ wall w' = wall w /\
    console w' = console w ++ out /\ attempted out = [].
Proof.
  destruct (hash_patterns_of_hexdigest _ Hmd5) as (a & b & Hhp & _).
  exists [a; b; ord_sum (md5_hexdigest session_cookie)].
  unfold analyze_patterns, and_then, datetime_now, lift. unfold print_line at 1 2.
  cbn [wall posts slept console]. rewrite print_lines_run.
  cbn [wall posts slept console]. rewrite Hhp.
  unfold print_line at 1. rewrite print_lines_run. unfold pure.
  cbn [wall posts slept console].
  eexists. eexists. split; [reflexivity|].
  cbn [wall posts slept console].
  repeat (split; [reflexivity|]).
  split; [rewrite <- !app_assoc; reflexivity|].
  rewrite !attempted_app, !attempted_patterns. reflexivity.
Qed.

End SolverFacts.

(** X15. With a well-formed MD5 hexdigest and any listing order of the set,
    [try_smart_guesses] never raises and makes at most 24 posts.  Each is a
    guess of a different number between 1 and 100000, sent to
    [base_url/graphql] with a timeout of 10 s and the session cookie under
    [connect.sid]. *)
Theorem try_smart_guesses_posts_bounded
        (base_url session_cookie : string) (md5_hexdigest : string -> string)
        (list_of_set : list Z -> list Z) (oracle : Server) (w : Env) :
  is_hexdigest (md5_hexdigest session_cookie) ->
  lists_sets list_of_set ->
  exists r w' numbers,
    try_smart_guesses base_url session_cookie md5_hexdigest list_of_set oracle w
    = (Val r, w') /\
    posts w' = posts w ++ map (guess_post (create_session base_url session_cookie)
                                          base_url) numbers /\
    NoDup numbers /\
    Forall (fun n => 1 <= n <= 100000) numbers /\
    (length numbers <= 24)%nat /\
    Forall (fun p => post_url p = (base_url ++ "/graphql")%string /\
                     post_timeout p = 10 /\
                     cookies (session p) = [("connect.sid"%string, session_cookie)])
           (map (guess_post (create_session base_url session_cookie) base_url)
                numbers).
Proof.
  intros Hmd5 Hset.
  unfold try_smart_guesses, and_then at 1. unfold print_line at 1.
  set (w0 := {| wall := wall w; posts := posts w; slept := slept w;
                console := console w ++ [TryingSmartGuesses] |}).
  destruct (analyze_patterns_run session_cookie md5_hexdigest Hmd5 w0)
    as (hp & w1 & out & Hrun & _ & Hlen & Hposts1 & _).
  unfold and_then at 1. rewrite Hrun.
  set (gs := all_guesses list_of_set (time_patterns (wall w0) ++ hp)).
  unfold and_then at 1, print_line at 1.
  set (w2 := {| wall := wall w1; posts := posts w1; slept := slept w1;
                console := console w1 ++ [TryingCount (length gs)] |}).
  destruct (guess_loop_run base_url oracle (create_session base_url session_cookie)
                           (length gs) gs O w2)
    as (r & w' & k & out2 & sl & Hloop & Hk & Hposts & _).
  destruct (all_guesses_distinct_and_in_range
              list_of_set (time_patterns (wall w0) ++ hp) Hset)
    as (Hnd & Hmem & _ & Hub).
  fold gs in Hnd, Hmem, Hub.
  exists r, w', (firstn k gs).
  split; [exact Hloop|].
  split; [rewrite Hposts; unfold sent; subst w2; cbn [posts];
          rewrite Hposts1; reflexivity|].
  split.
  { rewrite <- (firstn_skipn k gs) in Hnd. now apply NoDup_app_remove_r in Hnd. }
  split.
  { apply Forall_forall. intros n Hn.
    apply (Hmem n). rewrite <- (firstn_skipn k gs). apply in_or_app. now left. }
  split.
  { rewrite length_firstn, length_app in *. cbn [time_patterns length] in Hub.
    rewrite Hlen in Hub. lia. }
  apply Forall_map, Forall_forall. intros n _. cbn. repeat split.
Qed.

Lemma try_smart_guesses_posts_bounded_witness :
  is_hexdigest digest_of_empty /\
  lists_sets (nodup Z.eq_dec) /\
  exists r w',
    try_smart_guesses "http://ctf" "cookie" (fun _ => digest_of_empty)
                      (nodup Z.eq_dec) (fun _ _ => Raised) start
    = (Val r, w') /\
    (length (posts w') <= 24)%nat.
Proof.
  assert (H1 : is_hexdigest digest_of_empty) by (split; reflexivity).
  assert (H2 : lists_sets (nodup Z.eq_dec)).
  { intros l. split; [apply NoDup_nodup | intros x; apply nodup_In]. }
  split; [exact H1|]. split; [exact H2|].
  destruct (try_smart_guesses_posts_bounded
              "http://ctf" "cookie" (fun _ => digest_of_empty)
              (nodup Z.eq_dec) (fun _ _ => Raised) start H1 H2)
    as (r & w' & numbers & Hrun & Hposts & _ & _ & Hlen & _).
  exists r, w'. split; [exact Hrun|].
  rewrite Hposts. cbn [posts start app]. now rewrite length_map.
Defined.

(** ** Hints in the page *)

(** X16. [check_for_hints] can only ever report HTML comments and the words
    "hint", "answer" and "secret", in this order and each at most once:
    "flag" and "number", although on the list of suspicious words, are
    never reported, whatever the page contains. *)
Theorem page_hints_never_flag_or_number (content : string) :
  (exists c h a s : bool,
      page_hints content =
      (if c then ["HTML comments found"%string] else [])
      ++ (if h then ["Found 'hint' in page source"%string] else [])
      ++ (if a then ["Found 'answer' in page source"%string] else [])
      ++ (if s then ["Found 'secret' in page source"%string] else [])) /\
  ~ In "Found 'flag' in page source"%string (page_hints content) /\
  ~ In "Found 'number' in page source"%string (page_hints content) /\
  (length (page_hints content) <= 4)%nat.
Proof.
  assert (Hshape : exists c h a s : bool,
      page_hints content =
      (if c then ["HTML comments found"%string] else [])
      ++ (if h then ["Found 'hint' in page source"%string] else [])
      ++ (if a then ["Found 'answer' in page source"%string] else [])
      ++ (if s then ["Found 'secret' in page source"%string] else [])).
  { exists (contains "<!--" content), (contains "hint" content),
           (contains "answer" content), (contains "secret" content).
    unfold page_hints, suspicious. cbn [filter excluded existsb String.eqb
      Ascii.eqb Bool.eqb negb orb andb].
    rewrite !andb_true_r, !andb_false_r.
    destruct (contains "hint" content), (contains "answer" content),
             (contains "secret" content); reflexivity. }
  split; [exact Hshape|].
  destruct Hshape as (c & h & a & s & ->).
  destruct c, h, a, s; cbn [app In length];
    (split; [|split]); try lia; intros H;
    repeat (destruct H as [H|H]; [discriminate H|]); exact H.
Qed.

End OpFacts.
